(** * scraper.py: a bounded, same-domain crawler and its content extractor

    A shallow embedding of [src/scraper.py] and the properties of its
    specification.

    - Python [str] is [string]; a character is a code point below 256.
    - Python [int] ([max_pages], [max_depth], [depth], [len(results)]) is [Z].
    - The parsed document (a BeautifulSoup tree) is a rose tree of text and
      element nodes; an element's attribute dictionary is a [gmap].
    - [visited] is a [gset string], [queue] (a deque used first-in first-out)
      and [results] are lists.
    - An exception is a value of [exn]; code that may raise returns a
      [result].  [try ... except Exception] is a case analysis on it.
    - The libraries the crawl calls ([urllib.parse], [requests], the HTML
      parser), standard output and the file system are the fields of the
      class [World]; each of them may raise. *)

From Stdlib Require Import ZArith Lia Ascii DecimalString.
From stdpp Require Import base tactics option list gmap strings sorting.

#[local] Set Warnings "-clear-no-such-hyp".

Local Open Scope Z_scope.

(** ** Strings *)

Module Str.

(** [str.isspace] on one character, for code points below 256. *)
Definition isspace (c : ascii) : bool :=
  let n := Ascii.nat_of_ascii c in
  ((9 <=? n)%nat && (n <=? 13)%nat)
  || ((28 <=? n)%nat && (n <=? 32)%nat)
  || (n =? 133)%nat || (n =? 160)%nat.

Fixpoint lstrip (s : string) : string :=
  match s with
  | EmptyString => EmptyString
  | String c s' => if isspace c then lstrip s' else s
  end.

Fixpoint rstrip (s : string) : string :=
  match s with
  | EmptyString => EmptyString
  | String c s' =>
      match rstrip s' with
      | EmptyString => if isspace c then EmptyString else String c EmptyString
      | r => String c r
      end
  end.

(** [s.strip()] *)
Definition strip (s : string) : string := rstrip (lstrip s).

(** [s.startswith(p)] *)
Definition startswith (s p : string) : bool := String.prefix p s.

(** [s.endswith(suffix)] *)
Definition endswith (s suffix : string) : bool :=
  let n := String.length s in
  let k := String.length suffix in
  (k <=? n)%nat && String.eqb (String.substring (n - k) k s) suffix.

(** Truth value of a string: [bool(s)]. *)
Definition truthy (s : string) : bool :=
  match s with EmptyString => false | _ => true end.

(** [str(n)] for an integer. *)
Definition of_Z (n : Z) : string := NilZero.string_of_int (Z.to_int n).

(** The maximal runs of non-space characters of [s], in order. *)
Fixpoint words_aux (cur : string) (s : string) : list string :=
  match s with
  | EmptyString => if truthy cur then [cur] else []
  | String c s' =>
      if isspace c
      then (if truthy cur then [cur] else []) ++ words_aux EmptyString s'
      else words_aux (cur +:+ String c EmptyString) s'
  end.

Definition words (s : string) : list string := words_aux EmptyString s.

End Str.

(** ** Exceptions and results *)

Inductive exn : Type :=
  | RequestException (msg : string)
  | HTTPError (msg : string)
  | ParserRejectedMarkup (msg : string)
  | ValueError (msg : string)
  | KeyError (key : string)
  | AttributeError (msg : string)
  | OSError (msg : string).

(** [str(e)] *)
Definition str_exn (e : exn) : string :=
  match e with
  | RequestException m | HTTPError m | ParserRejectedMarkup m
  | ValueError m | AttributeError m | OSError m => m
  | KeyError k => "'" +:+ k +:+ "'"
  end.

Inductive result (A : Type) : Type :=
  | Ok (a : A)
  | Raise (e : exn).
Arguments Ok {A} a.
Arguments Raise {A} e.

(** Sequencing: [x ← c; k] runs [k] when [c] returns and passes the
    exception on when [c] raises. *)
Global Instance result_ret : MRet result := @Ok.
Global Instance result_bind : MBind result := λ A B k r,
  match r with
  | Ok a => k a
  | Raise e => Raise e
  end.

Definition is_ok {A : Type} (r : result A) : bool :=
  match r with Ok _ => true | Raise _ => false end.

(** ** The document tree *)

#[warnings="-register-all"]
Inductive PageElement : Type :=
  | NavigableString (s : string)
  | Tag (name : string) (attrs : gmap string string)
        (contents : list PageElement).

(** The elements below [e], in document order. *)
Fixpoint descendants (e : PageElement) : list PageElement :=
  match e with
  | NavigableString _ => []
  | Tag _ _ cs =>
      (fix go (l : list PageElement) : list PageElement :=
         match l with
         | [] => []
         | c :: l' => c :: descendants c ++ go l'
         end) cs
  end.

(** [e.get_text()]: the strings below [e], joined. *)
Fixpoint get_text (e : PageElement) : string :=
  match e with
  | NavigableString s => s
  | Tag _ _ cs =>
      (fix go (l : list PageElement) : string :=
         match l with
         | [] => EmptyString
         | c :: l' => get_text c +:+ go l'
         end) cs
  end.

Definition tag_name (e : PageElement) : option string :=
  match e with
  | NavigableString _ => None
  | Tag n _ _ => Some n
  end.

(** [e.get(key)] *)
Definition get (e : PageElement) (key : string) : option string :=
  match e with
  | NavigableString _ => None
  | Tag _ a _ => a !! key
  end.

(** [e[key]] *)
Definition getitem (e : PageElement) (key : string) : result string :=
  match get e key with
  | Some v => Ok v
  | None => Raise (KeyError key)
  end.

Definition is_tag (name : string) (e : PageElement) : bool :=
  match tag_name e with
  | Some n => String.eqb n name
  | None => false
  end.

(** An attribute filter [{key: value}]: [class] matches one of the classes
    of the element, any other attribute matches its whole value. *)
Definition attr_matches (key value : string) (e : PageElement) : bool :=
  match get e key with
  | None => false
  | Some v =>
      if String.eqb key "class"
      then existsb (String.eqb value) (Str.words v)
      else String.eqb v value
  end.

(** [e.find(name)] and [e.find(name, {key: value})] *)
Definition find (name : string) (e : PageElement) : option PageElement :=
  List.find (is_tag name) (descendants e).

Definition find_attr (name key value : string) (e : PageElement)
  : option PageElement :=
  List.find (fun x => is_tag name x && attr_matches key value x)
            (descendants e).

(** [e.find_all(name)] *)
Definition find_all (name : string) (e : PageElement) : list PageElement :=
  filter (fun x => is_tag name x = true) (descendants e).

(** ** Title *)

(** [title or default], for [title] either [None] or a string. *)
Definition or_default (title : option string) (default : string) : string :=
  match title with
  | Some s => if Str.truthy s then s else default
  | None => default
  end.

Definition extract_title (soup : PageElement) : result string :=
  title ←
    match find "h1" soup with
    | Some h1 => Ok (Some (Str.strip (get_text h1)))
    | None =>
        match find_attr "meta" "property" "og:title" soup with
        | Some meta =>
            content ← getitem meta "content";
            Ok (Some (Str.strip content))
        | None =>
            match find "title" soup with
            | Some t => Ok (Some (Str.strip (get_text t)))
            | None => Ok None
            end
        end
    end;
  Ok (or_default title "Unknown Title").

(** ** Date *)

Definition date_elements : list (string * (string * string)) :=
  [ ("meta", ("property", "article:published_time"));
    ("meta", ("name", "date"));
    ("meta", ("name", "publication_date"));
    ("time", ("class", "entry-date")) ].

(** The [for tag, attrs in date_elements] loop; [date] is the variable of
    that name, and the loop is left at the first non-empty value. *)
Fixpoint date_loop (soup : PageElement) (date : option string)
    (elements : list (string * (string * string))) : option string :=
  match elements with
  | [] => date
  | (tag, (key, value)) :: rest =>
      match find_attr tag key value soup with
      | Some element =>
          let date :=
            if String.eqb tag "meta" then get element "content"
            else Some (Str.strip (get_text element)) in
          match date with
          | Some d => if Str.truthy d then date else date_loop soup date rest
          | None => date_loop soup date rest
          end
      | None => date_loop soup date rest
      end
  end.

Definition extract_date (soup : PageElement) : string :=
  or_default (date_loop soup None date_elements) "Unknown Date".

(** ** Content *)

Definition unwanted : list string :=
  ["script"; "style"; "nav"; "footer"; "header"].

Definition named_in (names : list string) (e : PageElement) : bool :=
  existsb (fun n => is_tag n e) names.

(** The tree after [element.decompose()] for every element of
    [soup(names)]: all elements with one of the names are gone. *)
Fixpoint decompose_all (names : list string) (e : PageElement) : PageElement :=
  match e with
  | NavigableString s => NavigableString s
  | Tag n a cs =>
      Tag n a
        ((fix go (l : list PageElement) : list PageElement :=
            match l with
            | [] => []
            | c :: l' =>
                if named_in names c then go l'
                else decompose_all names c :: go l'
            end) cs)
  end.

(** Whether an element matches one of the simple selectors the code uses:
    [.c] a class, [#i] an id, anything else a tag name. *)
Definition matches_selector (selector : string) (e : PageElement) : bool :=
  match selector with
  | String "."%char cls => attr_matches "class" cls e
  | String "#"%char i => attr_matches "id" i e
  | _ => is_tag selector e
  end.

(** [soup.select_one(selector)] *)
Definition select_one (selector : string) (soup : PageElement)
  : option PageElement :=
  List.find (matches_selector selector) (descendants soup).

Definition selectors : list string :=
  ["article"; "main"; ".content"; "#content"; ".post"; ".article"].

(** The [for selector in ...] loop with its [break]. *)
Fixpoint first_container (sels : list string) (soup : PageElement)
  : option PageElement :=
  match sels with
  | [] => None
  | selector :: rest =>
      match select_one selector soup with
      | Some container => Some container
      | None => first_container rest soup
      end
  end.

Definition newline : string := String "010"%char EmptyString.

(** One round of the [for p in content_container.find_all('p')] loop. *)
Definition add_paragraph (content : string) (p : PageElement) : string :=
  let text := Str.strip (get_text p) in
  if Str.truthy text then content +:+ text +:+ newline +:+ newline
  else content.

(** Lines 154-163: the first selector that matches, else [soup.body]. *)
Definition content_container (soup : PageElement) : option PageElement :=
  match first_container selectors soup with
  | Some container => Some container
  | None => find "body" soup
  end.

(** [extract_content] returns the content and, since it removes elements
    from the tree it is given, the tree it leaves behind. *)
Definition extract_content (soup : PageElement)
  : result (string * PageElement) :=
  let soup := decompose_all unwanted soup in
  let content := EmptyString in
  match content_container soup with
  | None =>
      Raise (AttributeError "'NoneType' object has no attribute 'find_all'")
  | Some container =>
      let content := fold_left add_paragraph (find_all "p" container) content in
      let content :=
        if negb (Str.truthy (Str.strip content))
        then Str.strip (get_text container)
        else content in
      Ok (content, soup)
  end.

(** ** The libraries *)

(** [urlparse(url)]: the six components of a URL. *)
Record ParseResult : Type := {
  scheme : string;
  netloc : string;
  path : string;
  params : string;
  query : string;
  fragment : string
}.

(** A [requests] response: the body the code reads ([response.text]),
    and the status and URL ([response.url]) that [raise_for_status] goes
    by. *)
Record Response : Type := {
  status_code : Z;
  reason : string;
  text : string;
  response_url : string
}.

(** One entry of [results], the dictionary [page_data]. *)
Record PageRecord : Type := {
  title : string;
  date : string;
  link : string;
  content : string
}.

(** What [scrape_website] calls and does not define: the functions of
    [urllib.parse], [requests] and the HTML parser, standard output and
    the file system.  Each may raise.

    - [stdout_write log line] is [print(line)] when the lines [log] have
      been printed; it raises when standard output refuses the line.
    - [json_dump output_file results] is lines 104-105: opening
      [output_file] for writing and dumping [results] into it.

    One crawl asks for a URL at most once (see [reachable_history]
    below), so the web it sees is a function of the URL. *)
Class World : Type := {
  urljoin : string → string → result string;
  urlparse : string → result ParseResult;
  requests_get : string → result Response;
  raise_for_status : Response → result unit;
  BeautifulSoup : string → result PageElement;
  stdout_write : list string → string → result unit;
  json_dump : string → list PageRecord → result unit
}.

(** ** The crawl *)

(** The variables of [scrape_website] that its loop changes, the lines
    printed so far and, as a ghost field, [history]: every pair ever put
    into [queue], in the order of the [append]s. *)
Record State : Type := {
  queue : list (string * Z);
  visited : gset string;
  results : list PageRecord;
  stdout : list string;
  history : list (string * Z)
}.

Definition len {A : Type} (l : list A) : Z := Z.of_nat (length l).

(** The state after [print(line)], once standard output has taken the
    line. *)
Definition print (line : string) (s : State) : State :=
  {| queue := queue s; visited := visited s; results := results s;
     stdout := stdout s ++ [line]; history := history s |}.

(** [queue.popleft()], when [queue] is [entry :: rest]. *)
Definition popleft (rest : list (string * Z)) (s : State) : State :=
  {| queue := rest; visited := visited s; results := results s;
     stdout := stdout s; history := history s |}.

(** [results.append(page_data)] *)
Definition append_result (page_data : PageRecord) (s : State) : State :=
  {| queue := queue s; visited := visited s;
     results := results s ++ [page_data];
     stdout := stdout s; history := history s |}.

(** [visited.add(clean_url); queue.append((clean_url, depth))] *)
Definition enqueue (clean_url : string) (depth : Z) (s : State) : State :=
  {| queue := queue s ++ [(clean_url, depth)];
     visited := {[clean_url]} ∪ visited s;
     results := results s; stdout := stdout s;
     history := history s ++ [(clean_url, depth)] |}.

Definition denylist : list string := [".pdf"; ".jpg"; ".png"; ".gif"].

(** [any(clean_url.endswith(ext) for ext in denylist)] *)
Definition denied (clean_url : string) : bool :=
  existsb (Str.endswith clean_url) denylist.

Section Crawl.

Context `{W : World}.

(** Lines 72-94, the filter of one link: [Ok None] where the code says
    [continue], [Ok (Some clean_url)] where it goes on to enqueue. *)
Definition accept_link (base_domain current_url : string)
    (visited : gset string) (link : PageElement) : result (option string) :=
  href ← getitem link "href";
  next_url ← urljoin current_url href;
  if negb (Str.startswith next_url "http://"
           || Str.startswith next_url "https://")
  then Ok None
  else
    parsed_next ← urlparse next_url;
    let clean_url :=
      scheme parsed_next +:+ "://" +:+ netloc parsed_next
        +:+ path parsed_next in
    if bool_decide (clean_url ∈ visited) then Ok None
    else if negb (String.eqb (netloc parsed_next) base_domain) then Ok None
    else if denied clean_url then Ok None
    else Ok (Some clean_url).

(** The [for link in soup.find_all('a', href=True)] loop.  It changes
    [visited] and [queue] in place, so when a link raises, what the
    links before it did stays done. *)
Fixpoint for_links (base_domain current_url : string) (depth : Z)
    (links : list PageElement) (s : State) : State * option exn :=
  match links with
  | [] => (s, None)
  | link :: rest =>
      match accept_link base_domain current_url (visited s) link with
      | Raise e => (s, Some e)
      | Ok None => for_links base_domain current_url depth rest s
      | Ok (Some clean_url) =>
          for_links base_domain current_url depth rest
            (enqueue clean_url (depth + 1) s)
      end
  end.

(** [soup.find_all('a', href=True)] *)
Definition anchors (soup : PageElement) : list PageElement :=
  filter (fun x => is_tag "a" x = true ∧ is_Some (get x "href"))
         (descendants soup).

(** Lines 44-65: fetch, parse and extract one page.  The tree comes
    back as [extract_content] left it. *)
Definition fetch_page (current_url : string)
  : result (PageRecord * PageElement) :=
  response ← requests_get current_url;
  _ ← raise_for_status response;
  soup ← BeautifulSoup (text response);
  title ← extract_title soup;
  let date := extract_date soup in
  '(content, soup) ← extract_content soup;
  Ok ({| title := title; date := date; link := current_url;
         content := content |}, soup).

Definition scraping_line (s : State) (max_pages : Z) (current_url : string)
  : string :=
  "Scraping page " +:+ Str.of_Z (len (results s) + 1) +:+ "/"
    +:+ Str.of_Z max_pages +:+ ": " +:+ current_url.

Definition error_line (current_url : string) (e : exn) : string :=
  "Error processing " +:+ current_url +:+ ": " +:+ str_exn e.

(** The condition of the [while] loop. *)
Definition loop_cond (max_pages : Z) (s : State) : bool :=
  match queue s with
  | [] => false
  | _ :: _ => len (results s) <? max_pages
  end.

(** One round of the [while] loop, lines 37-101, on a standard output
    that takes the lines of the round (see [iteration_loop_body]). *)
Definition loop_body (base_domain : string) (max_pages max_depth : Z)
    (s : State) : State :=
  match queue s with
  | [] => s
  | (current_url, depth) :: rest =>
      let s := popleft rest s in
      let s := print (scraping_line s max_pages current_url) s in
      match fetch_page current_url with
      | Raise e => print (error_line current_url e) s
      | Ok (page_data, soup) =>
          let s := append_result page_data s in
          if (depth <? max_depth) && (len (results s) <? max_pages) then
            match for_links base_domain current_url depth (anchors soup) s
            with
            | (s, None) => s
            | (s, Some e) => print (error_line current_url e) s
            end
          else s
      end
  end.

(** [print(line)]: standard output may refuse the line. *)
Definition try_print (line : string) (s : State) : result State :=
  _ ← stdout_write (stdout s) line;
  Ok (print line s).

(** The [try] block, lines 40-98, from the state in which the entry has
    been taken off the queue: the state it leaves and the exception it
    raised, if it raised one.  What was done before the exception stays
    done. *)
Definition try_block (base_domain : string) (max_pages max_depth : Z)
    (current_url : string) (depth : Z) (s : State) : State * option exn :=
  match stdout_write (stdout s) (scraping_line s max_pages current_url) with
  | Raise e => (s, Some e)
  | Ok _ =>
      let s := print (scraping_line s max_pages current_url) s in
      match fetch_page current_url with
      | Raise e => (s, Some e)
      | Ok (page_data, soup) =>
          let s := append_result page_data s in
          if (depth <? max_depth) && (len (results s) <? max_pages) then
            for_links base_domain current_url depth (anchors soup) s
          else (s, None)
      end
  end.

(** One round of the [while] loop, lines 37-101.  The handler prints the
    exception of the [try] block; its [print] is under no [try], so what
    it raises leaves the loop. *)
Definition iteration (base_domain : string) (max_pages max_depth : Z)
    (s : State) : result State :=
  match queue s with
  | [] => Ok s
  | (current_url, depth) :: rest =>
      match try_block base_domain max_pages max_depth current_url depth
              (popleft rest s)
      with
      | (s, None) => Ok s
      | (s, Some e) => try_print (error_line current_url e) s
      end
  end.

(** The [while] loop, for at most [fuel] rounds: [None] when the rounds
    are not enough, [Some (Raise e)] when a round raises. *)
Fixpoint while (fuel : nat) (base_domain : string) (max_pages max_depth : Z)
    (s : State) : option (result State) :=
  if loop_cond max_pages s then
    match fuel with
    | O => None
    | S fuel' =>
        match iteration base_domain max_pages max_depth s with
        | Ok s' => while fuel' base_domain max_pages max_depth s'
        | Raise e => Some (Raise e)
        end
    end
  else Some (Ok s).

(** Lines 27-33. *)
Definition base_domain_of (url : string) : result string :=
  parsed_url ← urlparse url;
  Ok (netloc parsed_url).

Definition init (url : string) : State :=
  {| queue := [(url, 0)]; visited := {[url]}; results := [];
     stdout := []; history := [(url, 0)] |}.

(** What a call of [scrape_website] that returns leaves: the value it
    returns, the file it wrote and the lines it printed. *)
Record Outcome : Type := {
  returned : list PageRecord;
  written : string * list PageRecord;
  printed : list string
}.

(** Lines 103-109, from the state the loop ended in. *)
Definition save_results (output_file : string) (s : State)
  : result Outcome :=
  _ ← json_dump output_file (results s);
  s ← try_print ("Scraped " +:+ Str.of_Z (len (results s)) +:+ " pages") s;
  s ← try_print ("Results saved to " +:+ output_file) s;
  Ok {| returned := results s;
        written := (output_file, results s);
        printed := stdout s |}.

(** [scrape_website(url, max_pages, max_depth, output_file)]: [None] when
    [fuel] rounds are not enough, [Some (Raise e)] when the call raises. *)
Definition scrape_website (fuel : nat) (url : string)
    (max_pages max_depth : Z) (output_file : string)
  : option (result Outcome) :=
  match base_domain_of url with
  | Raise e => Some (Raise e)
  | Ok base_domain =>
      match while fuel base_domain max_pages max_depth (init url) with
      | None => None
      | Some (Raise e) => Some (Raise e)
      | Some (Ok s) => Some (save_results output_file s)
      end
  end.

(** The states the loop goes through. *)
Inductive reachable (url base_domain : string) (max_pages max_depth : Z)
  : State → Prop :=
  | reachable_init : reachable url base_domain max_pages max_depth (init url)
  | reachable_step s s' :
      reachable url base_domain max_pages max_depth s →
      loop_cond max_pages s = true →
      iteration base_domain max_pages max_depth s = Ok s' →
      reachable url base_domain max_pages max_depth s'.

End Crawl.

(** ** A small site

    A concrete [World] on which the definitions above run: URLs have the
    shape [scheme://netloc/path?query#fragment], an href is either such a
    URL or a path from the root, and the text of a page is the key under
    which its tree is stored. *)

Module Site.

(** [s] up to the first character for which [stop] holds, and the rest. *)
Fixpoint break (stop : ascii → bool) (s : string) : string * string :=
  match s with
  | EmptyString => (EmptyString, EmptyString)
  | String c s' =>
      if stop c then (EmptyString, s)
      else let '(a, b) := break stop s' in (String c a, b)
  end.

Definition one_of (cs : string) (c : ascii) : bool :=
  existsb (Ascii.eqb c) (String.list_ascii_of_string cs).

Definition tail (s : string) : string :=
  match s with
  | EmptyString => EmptyString
  | String _ s' => s'
  end.

Definition parse (url : string) : ParseResult :=
  let '(sch, rest) :=
    match String.index 0 "://" url with
    | Some i =>
        (String.substring 0 i url,
         String.substring (i + 1) (String.length url) url)
    | None => (EmptyString, url)
    end in
  let '(net, rest) :=
    if Str.startswith rest "//"
    then break (one_of "/?#") (tail (tail rest))
    else (EmptyString, rest) in
  let '(rest, frag) := break (one_of "#") rest in
  let '(pth, qry) := break (one_of "?") rest in
  {| scheme := sch; netloc := net; path := pth; params := EmptyString;
     query := tail qry; fragment := tail frag |}.

Definition join (base href : string) : string :=
  match String.index 0 "://" href with
  | Some _ => href
  | None =>
      let b := parse base in
      scheme b +:+ "://" +:+ netloc b +:+ href
  end.

Definition page (body : list PageElement) : PageElement :=
  Tag "[document]" ∅ [Tag "html" ∅ [Tag "body" ∅ body]].

Definition a (href : string) : PageElement :=
  Tag "a" {[ "href" := href ]} [NavigableString "link"].

Definition p (s : string) : PageElement := Tag "p" ∅ [NavigableString s].

Definition home : PageElement :=
  page [Tag "h1" ∅ [NavigableString "Home"];
        p "Welcome";
        a "/about?x=1#top"; a "/about"; a "/broken"; a "/bare";
        a "http://blog.example.com/x"; a "/paper.pdf"; a "/paper.PDF";
        a "mailto:me@example.com"].

Definition about : PageElement :=
  page [Tag "h1" ∅ [NavigableString "About"]; p "Us"; a "/"; a "/deep"].

(** A page without a container and without a [body]. *)
Definition bare : PageElement :=
  Tag "[document]" ∅ [Tag "h1" ∅ [NavigableString "Bare"]; p "text"].

Definition respond (url : string) (code : Z) (why body : string)
  : result Response :=
  Ok {| status_code := code; reason := why; text := body;
        response_url := url |}.

Definition get_url (url : string) : result Response :=
  if String.eqb url "http://example.com" then respond url 200 "OK" "home"
  else if String.eqb url "http://example.com/about"
  then respond url 200 "OK" "about"
  else if String.eqb url "http://example.com/bare"
  then respond url 200 "OK" "bare"
  else if String.eqb url "http://example.com/broken"
  then Raise (RequestException "Read timed out.")
  else respond url 404 "Not Found" "".

(** [response.raise_for_status()] *)
Definition status_check (response : Response) : result unit :=
  let code := status_code response in
  if (400 <=? code) && (code <? 500) then
    Raise (HTTPError (Str.of_Z code +:+ " Client Error: " +:+ reason response
                        +:+ " for url: " +:+ response_url response))
  else if (500 <=? code) && (code <? 600) then
    Raise (HTTPError (Str.of_Z code +:+ " Server Error: " +:+ reason response
                        +:+ " for url: " +:+ response_url response))
  else Ok ().

Definition soup_of (markup : string) : result PageElement :=
  if String.eqb markup "home" then Ok home
  else if String.eqb markup "about" then Ok about
  else if String.eqb markup "bare" then Ok bare
  else Ok (Tag "[document]" ∅ []).

(** There is no file of the empty name to open; any other is written. *)
Definition write (output_file : string) (results : list PageRecord)
  : result unit :=
  if String.eqb output_file ""
  then Raise (OSError "[Errno 2] No such file or directory: ''")
  else Ok ().

Definition world : World :=
  {| urljoin base href := Ok (join base href);
     urlparse url := Ok (parse url);
     requests_get := get_url;
     raise_for_status := status_check;
     BeautifulSoup := soup_of;
     stdout_write log line := Ok ();
     json_dump := write |}.

(** The same site with standard output closed. *)
Definition mute : World :=
  {| urljoin base href := Ok (join base href);
     urlparse url := Ok (parse url);
     requests_get := get_url;
     raise_for_status := status_check;
     BeautifulSoup := soup_of;
     stdout_write log line :=
       Raise (ValueError "I/O operation on closed file.");
     json_dump := write |}.

End Site.

(** ** Documents for the examples *)

Module Docs.

Definition h1 (s : string) : PageElement := Tag "h1" ∅ [NavigableString s].

Definition og_title (content : string) : PageElement :=
  Tag "meta" {[ "property" := "og:title"; "content" := content ]} [].

Definition title_tag (s : string) : PageElement :=
  Tag "title" ∅ [NavigableString s].

Definition doc (contents : list PageElement) : PageElement :=
  Tag "[document]" ∅ contents.

(** A blank [h1] before a good [og:title] and a good [title]. *)
Definition blank_h1 : PageElement :=
  doc [og_title "Meta Title"; title_tag "T"; Tag "body" ∅ [h1 "  "]].

(** No [h1], an [og:title] with empty content, a good [title]. *)
Definition blank_og : PageElement :=
  doc [og_title ""; title_tag "T"].

Definition hello : PageElement := doc [Tag "body" ∅ [h1 "Hello"]].

Definition meta_only : PageElement := doc [og_title "Meta Title"].

Definition three_paragraphs : PageElement :=
  doc [Tag "body" ∅
         [Site.p "A"; Tag "p" ∅ []; Site.p "B"]].

End Docs.

(** ** Auxiliary notions *)

(** The body text in the words of the specification: the trimmed texts of
    the paragraphs of a container, the empty ones left out, each followed
    by two newlines. *)
Definition paragraph_texts (container : PageElement) : list string :=
  List.filter Str.truthy
    (map (λ p, Str.strip (get_text p)) (find_all "p" container)).

Definition join_paragraphs (texts : list string) : string :=
  fold_right (λ text rest, text +:+ newline +:+ newline +:+ rest) "" texts.

(** [s'] is [s] after the entries [new] were enqueued. *)
Definition extends (new : list (string * Z)) (s s' : State) : Prop :=
  queue s' = queue s ++ new
  ∧ history s' = history s ++ new
  ∧ visited s' = list_to_set new.*1 ∪ visited s.

(** ** Further notions *)

(** The value one entry of [date_elements] stands for: none when no
    element matches, or when a matching [meta] has no [content]. *)
Definition date_value (soup : PageElement)
    (entry : string * (string * string)) : option string :=
  let '(tag, (key, value)) := entry in
  match find_attr tag key value soup with
  | Some element =>
      if String.eqb tag "meta" then get element "content"
      else Some (Str.strip (get_text element))
  | None => None
  end.

(** A value of the variable [date] that [if date] takes for false. *)
Definition falsy (date : option string) : Prop :=
  match date with
  | Some d => Str.truthy d = false
  | None => True
  end.

(** A [meta] date and a [time] date, both with white space around. *)
Definition padded_date : PageElement :=
  Docs.doc
    [Tag "meta" {[ "property" := "article:published_time";
                   "content" := " 2024-01-02 " ]} [];
     Tag "time" {[ "class" := "entry-date" ]} [NavigableString " 2023 "]].

(** A page with a menu and a script before its text. *)
Definition with_nav : PageElement :=
  Site.page [Tag "nav" ∅ [Site.a "/menu"; Site.p "Menu"];
             Tag "script" ∅ [NavigableString "var x;"];
             Site.p "Text"; Site.a "/next"].

(** A page with nothing but white space in it. *)
Definition blank_page : PageElement :=
  Site.page [Site.p "  "; NavigableString "  "].

(** The elements below [e] that have none of the names and are not below
    an element that has one, in document order. *)
Fixpoint kept (names : list string) (e : PageElement) : list PageElement :=
  match e with
  | NavigableString _ => []
  | Tag _ _ cs =>
      (fix go (l : list PageElement) : list PageElement :=
         match l with
         | [] => []
         | c :: l' =>
             if named_in names c then go l' else c :: kept names c ++ go l'
         end) cs
  end.

(** What [find_all('a', href=True)] selects. *)
Definition is_anchor (x : PageElement) : Prop :=
  is_tag "a" x = true ∧ is_Some (get x "href").

(** ** A site with a menu and a malformed link

    [urljoin] raises [ValueError] on the href ["http://["], as
    [urllib.parse] does on an IPv6 host that is not closed. *)

Module Odd.

Definition join (base href : string) : result string :=
  if String.eqb href "http://[" then Raise (ValueError "Invalid IPv6 URL")
  else Ok (Site.join base href).

Definition links : PageElement :=
  Site.page [Tag "h1" ∅ [NavigableString "Links"]; Site.p "x";
             Site.a "/one"; Site.a "http://["; Site.a "/two"].

Definition get_url (url : string) : result Response :=
  if String.eqb url "http://odd.test" then Site.respond url 200 "OK" "nav"
  else if String.eqb url "http://odd.test/links"
  then Site.respond url 200 "OK" "links"
  else Site.respond url 404 "Not Found" "".

Definition soup_of (markup : string) : result PageElement :=
  if String.eqb markup "nav" then Ok with_nav
  else if String.eqb markup "links" then Ok links
  else Ok (Tag "[document]" ∅ []).

Definition world : World :=
  {| urljoin := join;
     urlparse url := Ok (Site.parse url);
     requests_get := get_url;
     raise_for_status := Site.status_check;
     BeautifulSoup := soup_of;
     stdout_write log line := Ok ();
     json_dump := Site.write |}.

End Odd.


(** * Properties *)

(** ** Strings *)

Section StrFacts.

Lemma string_app_cons c s t : String c s +:+ t = String c (s +:+ t).
Proof. reflexivity. Qed.

Lemma string_app_nil_r s : s +:+ "" = s.
Proof. induction s as [|c s IH]; [done|]. by rewrite string_app_cons, IH. Qed.

Lemma string_app_assoc s t u : (s +:+ t) +:+ u = s +:+ t +:+ u.
Proof. induction s as [|c s IH]; [done|]. by rewrite !string_app_cons, IH. Qed.

Lemma string_length_app s t :
  String.length (s +:+ t) = (String.length s + String.length t)%nat.
Proof. induction s as [|c s IH]; [done|]. rewrite string_app_cons. simpl. lia. Qed.

Lemma substring_all s : String.substring 0 (String.length s) s = s.
Proof. induction s as [|c s IH]; [done|]. simpl. by rewrite IH. Qed.

Lemma substring_app_r pre x :
  String.substring (String.length pre) (String.length x) (pre +:+ x) = x.
Proof.
  induction pre as [|c pre IH]; [apply substring_all|].
  rewrite string_app_cons. simpl. exact IH.
Qed.

Lemma substring_split s m :
  (m ≤ String.length s)%nat →
  s = String.substring 0 m s
        +:+ String.substring m (String.length s - m) s.
Proof.
  revert m. induction s as [|c s IH]; intros [|m] Hm; simpl in *;
    try lia.
  - done.
  - by rewrite substring_all.
  - rewrite string_app_cons. f_equal. apply IH. lia.
Qed.

Lemma endswith_app pre x y :
  String.length x = String.length y →
  Str.endswith (pre +:+ x) y = String.eqb x y.
Proof.
  intros Hl. unfold Str.endswith. rewrite string_length_app, <- Hl.
  replace (String.length pre + String.length x - String.length x)%nat
    with (String.length pre) by lia.
  rewrite substring_app_r.
  destruct (Nat.leb_spec (String.length x)
              (String.length pre + String.length x)); [done | lia].
Qed.

Lemma endswith_spec s x :
  Str.endswith s x = true ↔ ∃ pre, s = pre +:+ x.
Proof.
  split.
  - unfold Str.endswith. intros [Hle Heq]%andb_prop.
    apply Nat.leb_le in Hle. apply String.eqb_eq in Heq.
    exists (String.substring 0 (String.length s - String.length x) s).
    pose proof (substring_split s (String.length s - String.length x)) as Hs.
    replace (String.length s - (String.length s - String.length x))%nat
      with (String.length x) in Hs by lia.
    rewrite Heq in Hs. apply Hs. lia.
  - intros [pre ->]. rewrite endswith_app by done. apply String.eqb_refl.
Qed.

End StrFacts.

(** ** The document tree *)

Section TreeFacts.

(** Induction on a tree, with the property known of all children. *)
Fixpoint PageElement_tree_ind (P : PageElement → Prop)
    (Hstr : ∀ s, P (NavigableString s))
    (Htag : ∀ n a cs, List.Forall P cs → P (Tag n a cs))
    (e : PageElement) : P e :=
  match e with
  | NavigableString s => Hstr s
  | Tag n a cs =>
      Htag n a cs
        ((fix go (l : list PageElement) : List.Forall P l :=
            match l with
            | [] => List.Forall_nil P
            | c :: l' =>
                List.Forall_cons P c l'
                  (PageElement_tree_ind P Hstr Htag c) (go l')
            end) cs)
  end.

Lemma descendants_Tag n a cs :
  descendants (Tag n a cs) = flat_map (λ c, c :: descendants c) cs.
Proof. induction cs as [|c cs IH]; [done|]. simpl in *. by rewrite IH. Qed.

Lemma decompose_all_Tag names n a cs :
  decompose_all names (Tag n a cs)
  = Tag n a (map (decompose_all names)
               (List.filter (λ c, negb (named_in names c)) cs)).
Proof.
  simpl. f_equal. induction cs as [|c cs IH]; [done|]. simpl.
  destruct (named_in names c); simpl; by rewrite IH.
Qed.

Lemma tag_name_decompose names e :
  tag_name (decompose_all names e) = tag_name e.
Proof. by destruct e. Qed.

Lemma get_decompose names e key :
  get (decompose_all names e) key = get e key.
Proof. by destruct e. Qed.

Lemma is_tag_decompose names name e :
  is_tag name (decompose_all names e) = is_tag name e.
Proof. unfold is_tag. by rewrite tag_name_decompose. Qed.







End TreeFacts.

(** ** Title *)

(** C1, as stated, fails: a document whose first [h1] is blank does not
    get the empty title.  On [Docs.blank_h1] the title is the placeholder. *)
Lemma blank_h1_title_is_not_empty :
  ¬ (∀ soup h1,
       find "h1" soup = Some h1 →
       Str.strip (get_text h1) = "" →
       extract_title soup = Ok "").
Proof.
  intros H.
  specialize (H Docs.blank_h1 (Docs.h1 "  ") eq_refl eq_refl).
  discriminate H.
Qed.

(** C1, amended: for every document whose first [h1] exists but has an
    empty trimmed text, title extraction returns the placeholder
    ["Unknown Title"]; whatever [og:title] and [title] say is not looked
    at. *)
Theorem blank_h1_title soup h1 :
  find "h1" soup = Some h1 →
  Str.strip (get_text h1) = "" →
  extract_title soup = Ok "Unknown Title".
Proof. intros Hfind Hblank. unfold extract_title. by rewrite Hfind, Hblank. Qed.

Lemma blank_h1_title_witness :
  find "h1" Docs.blank_h1 = Some (Docs.h1 "  ")
  ∧ find_attr "meta" "property" "og:title" Docs.blank_h1
    = Some (Docs.og_title "Meta Title")
  ∧ extract_title Docs.blank_h1 = Ok "Unknown Title".
Proof.
  split; [reflexivity|]. split; [reflexivity|].
  apply (blank_h1_title Docs.blank_h1 (Docs.h1 "  ")); reflexivity.
Defined.

(** C7, as stated, fails at the second link of the chain: with no [h1] and
    an [og:title] whose content is empty, the content is not the title;
    the title is the placeholder. *)
Lemma og_title_content_is_not_always_used :
  ¬ (∀ soup meta content,
       find "h1" soup = None →
       find_attr "meta" "property" "og:title" soup = Some meta →
       get meta "content" = Some content →
       extract_title soup = Ok content).
Proof.
  intros H.
  specialize (H Docs.blank_og (Docs.og_title "") "" eq_refl eq_refl eq_refl).
  discriminate H.
Qed.

(** C7, amended: title extraction takes its one candidate from the first
    of [h1], [meta property="og:title"] (its [content] attribute, when it
    has one) and [title] that exists, trims it, and returns it when it is
    not empty and ["Unknown Title"] when it is empty or nothing exists.
    So [<h1>Hello</h1>] alone gives ["Hello"], and no [h1] with an
    [og:title] of content ["Meta Title"] gives ["Meta Title"]. *)
Theorem title_fallback_chain soup :
  (∀ h1, find "h1" soup = Some h1 →
     extract_title soup
     = Ok (if Str.truthy (Str.strip (get_text h1))
           then Str.strip (get_text h1) else "Unknown Title"))
  ∧ (find "h1" soup = None →
     ∀ meta content,
       find_attr "meta" "property" "og:title" soup = Some meta →
       get meta "content" = Some content →
       extract_title soup
       = Ok (if Str.truthy (Str.strip content)
             then Str.strip content else "Unknown Title"))
  ∧ (find "h1" soup = None →
     find_attr "meta" "property" "og:title" soup = None →
     ∀ t, find "title" soup = Some t →
       extract_title soup
       = Ok (if Str.truthy (Str.strip (get_text t))
             then Str.strip (get_text t) else "Unknown Title"))
  ∧ (find "h1" soup = None →
     find_attr "meta" "property" "og:title" soup = None →
     find "title" soup = None →
     extract_title soup = Ok "Unknown Title")
  ∧ extract_title Docs.hello = Ok "Hello"
  ∧ (find "h1" soup = None →
     ∀ meta,
       find_attr "meta" "property" "og:title" soup = Some meta →
       get meta "content" = Some "Meta Title" →
       extract_title soup = Ok "Meta Title").
Proof.
  unfold extract_title, getitem.
  repeat split.
  - by intros h1 ->.
  - by intros -> meta content -> ->.
  - by intros -> -> t ->.
  - by intros -> -> ->.
  - by intros -> meta -> ->.
Qed.

Lemma title_fallback_chain_witness :
  extract_title Docs.meta_only = Ok "Meta Title"
  ∧ extract_title Docs.blank_og = Ok "Unknown Title".
Proof.
  split.
  - destruct (title_fallback_chain Docs.meta_only) as (_ & _ & _ & _ & _ & H).
    apply (H eq_refl (Docs.og_title "Meta Title")); reflexivity.
  - destruct (title_fallback_chain Docs.blank_og) as (_ & H & _).
    apply (H eq_refl (Docs.og_title "") ""); reflexivity.
Defined.

(** ** Content *)

Lemma fold_add_paragraph ps content :
  fold_left add_paragraph ps content
  = content
      +:+ join_paragraphs
            (List.filter Str.truthy (map (λ p, Str.strip (get_text p)) ps)).
Proof.
  revert content. induction ps as [|p ps IH]; intros content; simpl.
  - by rewrite string_app_nil_r.
  - rewrite IH. unfold add_paragraph.
    destruct (Str.truthy (Str.strip (get_text p))); [|done].
    simpl. by rewrite !string_app_assoc.
Qed.

(** C8: the content is the concatenation, in document order, of the
    trimmed text of every [p] below the selected container, each followed
    by two newlines, the empty ones left out; when that is empty or only
    white space, it is the trimmed text of the whole container.  Three
    paragraphs "A", "", "B" give "A\n\nB\n\n". *)
Theorem content_paragraphs soup container :
  content_container (decompose_all unwanted soup) = Some container →
  extract_content soup
  = Ok (if Str.truthy (Str.strip (join_paragraphs (paragraph_texts container)))
        then join_paragraphs (paragraph_texts container)
        else Str.strip (get_text container),
        decompose_all unwanted soup)
  ∧ extract_content Docs.three_paragraphs
    = Ok ("A" +:+ newline +:+ newline +:+ "B" +:+ newline +:+ newline,
          Docs.three_paragraphs).
Proof.
  intros Hc. split; [|reflexivity].
  unfold extract_content. rewrite Hc, fold_add_paragraph.
  unfold paragraph_texts. simpl.
  by destruct (Str.truthy _).
Qed.

Lemma content_paragraphs_witness :
  extract_content Site.home
  = Ok ("Welcome" +:+ newline +:+ newline, Site.home).
Proof.
  destruct (content_paragraphs Site.home
              (Tag "body" ∅
                 (Tag "h1" ∅ [NavigableString "Home"] :: Site.p "Welcome"
                    :: map Site.a
                         ["/about?x=1#top"; "/about"; "/broken"; "/bare";
                          "http://blog.example.com/x"; "/paper.pdf";
                          "/paper.PDF"; "mailto:me@example.com"]))
              eq_refl) as [H _].
  exact H.
Defined.


(** ** The link filter *)

Section Filter.

Context `{W : World}.

(** What an accepted link went through. *)
Lemma accept_link_Some base_domain current_url visited link clean_url :
  accept_link base_domain current_url visited link = Ok (Some clean_url) →
  ∃ href next_url parsed_next,
    get link "href" = Some href
    ∧ urljoin current_url href = Ok next_url
    ∧ (Str.startswith next_url "http://" = true
       ∨ Str.startswith next_url "https://" = true)
    ∧ urlparse next_url = Ok parsed_next
    ∧ clean_url
      = (scheme parsed_next +:+ "://" +:+ netloc parsed_next
           +:+ path parsed_next)
    ∧ (clean_url ∉ visited)
    ∧ String.eqb (netloc parsed_next) base_domain = true
    ∧ denied clean_url = false.
Proof.
  unfold accept_link, getitem, mbind, result_bind. intros H.
  destruct (get link "href") as [href|] eqn:Hhref; [|done].
  destruct (urljoin current_url href) as [next_url|] eqn:Hjoin; [|done].
  destruct (Str.startswith next_url "http://"
            || Str.startswith next_url "https://") eqn:Hhttp; [|done].
  simpl in H.
  destruct (urlparse next_url) as [parsed_next|] eqn:Hparse; [|done].
  case_bool_decide as Hvis; [done|].
  destruct (String.eqb (netloc parsed_next) base_domain) eqn:Hdom; [|done].
  simpl in H. destruct (denied _) eqn:Hden; [done|].
  injection H as <-.
  exists href, next_url, parsed_next.
  repeat split; try done. by apply orb_prop.
Qed.

(** A link that resolves to another host is left out. *)
Lemma accept_link_other_host base_domain current_url visited link href
    next_url parsed_next :
  get link "href" = Some href →
  urljoin current_url href = Ok next_url →
  urlparse next_url = Ok parsed_next →
  netloc parsed_next ≠ base_domain →
  accept_link base_domain current_url visited link = Ok None.
Proof.
  intros Hhref Hjoin Hparse Hne.
  unfold accept_link, getitem, mbind, result_bind.
  rewrite Hhref, Hjoin.
  destruct (negb _); [done|]. rewrite Hparse.
  case_bool_decide; [done|].
  apply String.eqb_neq in Hne. by rewrite Hne.
Qed.

End Filter.

Lemma denied_spec clean_url :
  denied clean_url = true
  ↔ ∃ ext pre, In ext [".pdf"; ".jpg"; ".png"; ".gif"]
               ∧ clean_url = pre +:+ ext.
Proof.
  unfold denied, denylist. rewrite existsb_exists. split.
  - intros (ext & Hin & [pre ->]%endswith_spec). by exists ext, pre.
  - intros (ext & pre & Hin & ->). exists ext. split; [done|].
    apply endswith_spec. by exists pre.
Qed.

(** The check looks at the case of the letters: [.PDF] is none of the
    four. *)
Lemma denied_upper_pdf pre : denied (pre +:+ ".PDF") = false.
Proof.
  unfold denied, denylist. simpl. by rewrite !endswith_app by done.
Qed.

(** C5: a link is accepted only when the host of the URL it resolves to
    is, as a string, equal to the base domain; any other host is left
    out, a subdomain or the same name in another case included.  With the
    base domain [example.com], [http://blog.example.com/x] is rejected. *)
Theorem same_domain_only `{W : World} base_domain current_url visited link :
  (∀ clean_url,
     accept_link base_domain current_url visited link = Ok (Some clean_url) →
     ∃ href next_url parsed_next,
       get link "href" = Some href
       ∧ urljoin current_url href = Ok next_url
       ∧ urlparse next_url = Ok parsed_next
       ∧ netloc parsed_next = base_domain)
  ∧ (∀ href next_url parsed_next,
       get link "href" = Some href →
       urljoin current_url href = Ok next_url →
       urlparse next_url = Ok parsed_next →
       netloc parsed_next ≠ base_domain →
       accept_link base_domain current_url visited link = Ok None)
  ∧ @accept_link Site.world "example.com" "http://example.com" ∅
      (Site.a "http://blog.example.com/x") = Ok None
  ∧ @accept_link Site.world "example.com" "http://example.com" ∅
      (Site.a "http://Example.com/x") = Ok None
  ∧ @accept_link Site.world "example.com" "http://example.com" ∅
      (Site.a "http://example.com/x") = Ok (Some "http://example.com/x").
Proof.
  split; [|split; [|by vm_compute]].
  - intros clean_url
      (href & next_url & parsed_next & ? & ? & _ & ? & _ & _ & Heq & _)
      %accept_link_Some.
    exists href, next_url, parsed_next. by rewrite String.eqb_eq in Heq.
  - intros. by eapply accept_link_other_host.
Qed.

Lemma same_domain_only_witness :
  netloc (Site.parse "http://example.com/about?x=1#top") = "example.com"
  ∧ netloc (Site.parse "http://blog.example.com/x") ≠ "example.com".
Proof.
  pose proof (@same_domain_only Site.world "example.com" "http://example.com"
                ∅ (Site.a "/about?x=1#top")) as (Hacc & _).
  destruct (Hacc "http://example.com/about" eq_refl)
    as (href & next_url & parsed_next & Hhref & Hjoin & Hparse & Hnet).
  injection Hhref as <-. injection Hjoin as <-. injection Hparse as <-.
  split; [exact Hnet | by vm_compute].
Defined.

(** C6: the denylist check is a case-sensitive suffix match against
    exactly [.pdf], [.jpg], [.png] and [.gif]: a link whose canonical
    form ends in one of the four is rejected, and one that ends in
    [.PDF] is not rejected by the check. *)
Theorem denylist_suffix_match `{W : World} base_domain current_url visited
    link clean_url :
  (denied clean_url = true
   ↔ ∃ ext pre, In ext [".pdf"; ".jpg"; ".png"; ".gif"]
                ∧ clean_url = pre +:+ ext)
  ∧ (accept_link base_domain current_url visited link = Ok (Some clean_url) →
     ∀ ext pre, In ext [".pdf"; ".jpg"; ".png"; ".gif"] →
                clean_url ≠ pre +:+ ext)
  ∧ (∀ pre, denied (pre +:+ ".PDF") = false)
  ∧ @accept_link Site.world "example.com" "http://example.com" ∅
      (Site.a "/paper.pdf") = Ok None
  ∧ @accept_link Site.world "example.com" "http://example.com" ∅
      (Site.a "/paper.PDF") = Ok (Some "http://example.com/paper.PDF").
Proof.
  split; [apply denied_spec|]. split; [|split; [apply denied_upper_pdf|]].
  - intros (_ & _ & _ & _ & _ & _ & _ & _ & _ & _ & Hden)%accept_link_Some
      ext pre Hin ->.
    rewrite (proj2 (denied_spec (pre +:+ ext))) in Hden; [done|].
    by exists ext, pre.
  - by vm_compute.
Qed.

Lemma denylist_suffix_match_witness :
  @accept_link Site.world "example.com" "http://example.com" ∅
    (Site.a "/paper.PDF") = Ok (Some "http://example.com/paper.PDF")
  ∧ "http://example.com/paper.PDF" ≠ "http://example.com/paper" +:+ ".pdf"
  ∧ denied "http://example.com/paper.pdf" = true.
Proof.
  split; [by vm_compute|]. split.
  - destruct (@denylist_suffix_match Site.world "example.com"
                "http://example.com" ∅ (Site.a "/paper.PDF")
                "http://example.com/paper.PDF") as (_ & Hacc & _).
    apply Hacc; [by vm_compute | by left].
  - destruct (@denylist_suffix_match Site.world "example.com"
                "http://example.com" ∅ (Site.a "/paper.pdf")
                "http://example.com/paper.pdf") as (Hden & _).
    apply Hden. by exists ".pdf", "http://example.com/paper"; split; [left|].
Defined.

(** ** The crawl *)

Section CrawlFacts.

Context `{W : World}.
Context (url base_domain : string) (max_pages max_depth : Z).

Local Abbreviation body := (loop_body base_domain max_pages max_depth).
Local Abbreviation reach :=
  (reachable url base_domain max_pages max_depth).

Lemma extends_nil s s' :
  queue s' = queue s → history s' = history s → visited s' = visited s →
  extends [] s s'.
Proof.
  intros Hq Hh Hv. unfold extends.
  rewrite Hq, Hh, Hv, !app_nil_r. simpl.
  repeat split. set_solver.
Qed.

Lemma extends_enqueue clean_url depth new s s' :
  extends new (enqueue clean_url depth s) s' →
  extends ((clean_url, depth) :: new) s s'.
Proof.
  unfold extends. simpl. intros (Hq & Hh & Hv).
  rewrite Hq, Hh, Hv, <- !app_assoc. simpl.
  repeat split. set_solver.
Qed.

Lemma for_links_spec current_url depth links s s' oe :
  for_links base_domain current_url depth links s = (s', oe) →
  results s' = results s
  ∧ stdout s' = stdout s
  ∧ ∃ new,
      extends new s s'
      ∧ NoDup new.*1
      ∧ (∀ u, u ∈ new.*1 → u ∉ visited s)
      ∧ (∀ e, e ∈ new → e.2 = depth + 1).
Proof.
  revert s. induction links as [|link links IH]; intros s Hfor;
    simpl in Hfor.
  - injection Hfor as <- <-. do 2 (split; [done|]). exists [].
    split; [by apply extends_nil|]. split; [constructor|].
    split; intros ? Hin; by apply elem_of_nil in Hin.
  - destruct (accept_link base_domain current_url (visited s) link)
      as [[clean_url|]|e] eqn:Hacc.
    + apply accept_link_Some in Hacc
        as (href & next_url & parsed_next & _ & _ & _ & _ & _ & Hfresh & _).
      apply IH in Hfor as (Hres & Hout & new & Hext & Hnd & Hnew & Hd).
      do 2 (split; [done|]). exists ((clean_url, depth + 1) :: new).
      split; [by apply extends_enqueue|].
      assert (Hnotin : clean_url ∉ new.*1).
      { intros Hin. apply Hnew in Hin. simpl in Hin. set_solver. }
      split; [by constructor|]. split.
      * intros u [->|Hin]%elem_of_cons; [done|].
        apply Hnew in Hin. simpl in Hin. set_solver.
      * intros e [->|Hin]%elem_of_cons; [done|]. by apply Hd.
    + by apply IH in Hfor.
    + injection Hfor as <- <-. do 2 (split; [done|]). exists [].
      split; [by apply extends_nil|]. split; [constructor|].
      split; intros ? Hin; by apply elem_of_nil in Hin.
Qed.

(** What one round of the loop does to the state: it takes the first
    entry off [queue], appends at most one record, and enqueues new
    entries only below the depth bound and the page bound. *)
Lemma loop_body_spec s current_url depth rest :
  queue s = (current_url, depth) :: rest →
  ∃ new,
    extends new (popleft rest s) (body s)
    ∧ NoDup new.*1
    ∧ (∀ u, u ∈ new.*1 → u ∉ visited s)
    ∧ (∀ e, e ∈ new → e.2 = depth + 1)
    ∧ (new = [] ∨ (depth < max_depth ∧ len (results (body s)) < max_pages))
    ∧ match fetch_page current_url with
      | Raise _ => results (body s) = results s ∧ new = []
      | Ok (page_data, _) => results (body s) = results s ++ [page_data]
      end.
Proof.
  intros Hq. unfold loop_body. rewrite Hq.
  destruct (fetch_page current_url) as [[page_data soup]|e].
  - set (s1 := append_result page_data _).
    destruct ((depth <? max_depth) && (len (results s1) <? max_pages))
      eqn:Hgate.
    + apply andb_prop in Hgate as [Hd Hp].
      apply Z.ltb_lt in Hd. apply Z.ltb_lt in Hp.
      destruct (for_links base_domain current_url depth (anchors soup) s1)
        as [s' oe] eqn:Hfor.
      apply for_links_spec in Hfor
        as (Hres & Hout & new & Hext & Hnd & Hnew & He).
      exists new.
      assert (Hs' : extends new (popleft rest s) s') by exact Hext.
      destruct oe as [e|].
      * split; [exact Hs'|]. split; [done|]. split; [exact Hnew|].
        split; [done|]. split; [|exact Hres].
        right. split; [done|]. simpl. by rewrite Hres.
      * split; [exact Hs'|]. split; [done|]. split; [exact Hnew|].
        split; [done|]. split; [|exact Hres].
        right. split; [done|]. by rewrite Hres.
    + exists []. split; [by apply extends_nil|].
      split; [constructor|].
      split; [intros ? Hin; by apply elem_of_nil in Hin|].
      split; [intros ? Hin; by apply elem_of_nil in Hin|].
      split; [by left | done].
  - exists []. split; [by apply extends_nil|].
    split; [constructor|].
    split; [intros ? Hin; by apply elem_of_nil in Hin|].
    split; [intros ? Hin; by apply elem_of_nil in Hin|].
    split; [by left | done].
Qed.

(** A round that returns leaves what [loop_body] leaves or, when standard
    output refused the line of the page, the state without the entry and
    with the error line. *)
Lemma iteration_Ok s s' current_url depth rest :
  queue s = (current_url, depth) :: rest →
  iteration base_domain max_pages max_depth s = Ok s' →
  s' = body s
  ∨ ∃ e, s' = print (error_line current_url e) (popleft rest s).
Proof.
  intros Hq. unfold iteration, try_block, loop_body, try_print, mbind,
    result_bind. rewrite Hq. simpl.
  destruct (stdout_write (stdout s) _) as [[]|e0].
  - destruct (fetch_page current_url) as [[page_data soup]|e].
    + destruct (_ && _); [|intros [= <-]; by left].
      destruct (for_links _ _ _ _ _) as [s2 [e|]]; [|intros [= <-]; by left].
      destruct (stdout_write _ _); [|done]. intros [= <-]. by left.
    + simpl. destruct (stdout_write _ _); [|done]. intros [= <-]. by left.
  - simpl. destruct (stdout_write _ _); [|done]. intros [= <-].
    right. by exists e0.
Qed.

(** When standard output takes every line, a round is [loop_body]. *)
Lemma iteration_loop_body s :
  (∀ log line, stdout_write log line = Ok ()) →
  iteration base_domain max_pages max_depth s = Ok (body s).
Proof.
  intros Hout. unfold iteration, try_block, loop_body, try_print, mbind,
    result_bind.
  destruct (queue s) as [|[current_url depth] rest]; [done|].
  rewrite Hout.
  destruct (fetch_page current_url) as [[page_data soup]|e];
    [|by rewrite Hout].
  destruct (_ && _); [|done].
  destruct (for_links _ _ _ _ _) as [s2 [e|]]; [by rewrite Hout | done].
Qed.

(** What one round that returns does to the state. *)
Lemma iteration_spec s s' current_url depth rest :
  queue s = (current_url, depth) :: rest →
  iteration base_domain max_pages max_depth s = Ok s' →
  ∃ new,
    extends new (popleft rest s) s'
    ∧ NoDup new.*1
    ∧ (∀ u, u ∈ new.*1 → u ∉ visited s)
    ∧ (∀ e, e ∈ new → e.2 = depth + 1)
    ∧ (new = [] ∨ (depth < max_depth ∧ len (results s') < max_pages))
    ∧ ((results s' = results s ∧ new = [])
       ∨ ∃ page_data soup,
           fetch_page current_url = Ok (page_data, soup)
           ∧ results s' = results s ++ [page_data]).
Proof.
  intros Hq Hstep.
  destruct (iteration_Ok _ _ _ _ _ Hq Hstep) as [-> | [e0 ->]].
  - destruct (loop_body_spec s _ _ _ Hq)
      as (new & Hext & Hnd & Hfresh & Hd & Hgate & Hres).
    exists new. do 5 (split; [done|]).
    destruct (fetch_page current_url) as [[page_data soup]|e];
      [right; by exists page_data, soup | by left].
  - exists []. split; [by apply extends_nil|].
    split; [constructor|].
    split; [intros ? Hin; by apply elem_of_nil in Hin|].
    split; [intros ? Hin; by apply elem_of_nil in Hin|].
    split; [by left | by left].
Qed.

End CrawlFacts.

Section Invariants.

Context `{W : World}.
Context (url base_domain : string) (max_pages max_depth : Z).

Local Abbreviation body := (loop_body base_domain max_pages max_depth).
Local Abbreviation reach :=
  (reachable url base_domain max_pages max_depth).

Lemma loop_cond_true s :
  loop_cond max_pages s = true →
  ∃ current_url depth rest,
    queue s = (current_url, depth) :: rest ∧ len (results s) < max_pages.
Proof.
  unfold loop_cond. destruct (queue s) as [|[current_url depth] rest];
    [done|]. intros Hlt%Z.ltb_lt. by exists current_url, depth, rest.
Qed.

Lemma len_app_one {A} (l : list A) (x : A) : len (l ++ [x]) = len l + 1.
Proof. unfold len. rewrite length_app. simpl. lia. Qed.

(** A round on which standard output took the lines is a step of the
    loop. *)
Lemma reachable_loop_body s :
  reach s →
  loop_cond max_pages s = true →
  iteration base_domain max_pages max_depth s = Ok (body s) →
  reach (body s).
Proof. apply reachable_step. Qed.

(** The number of records never exceeds a non-negative bound. *)
Lemma reachable_results_bound s :
  0 ≤ max_pages → reach s → len (results s) ≤ max_pages.
Proof.
  intros Hpos Hreach. induction Hreach as [|s s' Hreach IH Hcond Hstep];
    [done|].
  apply loop_cond_true in Hcond as (current_url & depth & rest & Hq & Hlt).
  destruct (iteration_spec base_domain max_pages max_depth s s' _ _ _ Hq
              Hstep)
    as (new & _ & _ & _ & _ & _ & [[-> _] | (page_data & soup & _ & ->)]).
  - lia.
  - rewrite len_app_one. lia.
Qed.

(** No entry is ever enqueued deeper than a non-negative bound. *)
Lemma reachable_depth_bound s :
  0 ≤ max_depth → reach s → ∀ e, e ∈ history s → e.2 ≤ max_depth.
Proof.
  intros Hpos Hreach. induction Hreach as [|s s' Hreach IH Hcond Hstep].
  - intros e ->%list_elem_of_singleton. done.
  - apply loop_cond_true in Hcond as (current_url & depth & rest & Hq & _).
    destruct (iteration_spec base_domain max_pages max_depth s s' _ _ _ Hq
                Hstep)
      as (new & (_ & Hh & _) & _ & _ & Hd & Hgate & _).
    rewrite Hh. simpl. intros e [Hin|Hin]%elem_of_app; [by apply IH|].
    destruct Hgate as [-> | [Hlt _]]; [by apply elem_of_nil in Hin|].
    rewrite (Hd e Hin). lia.
Qed.

(** [visited] holds the URLs ever enqueued, each enqueued once, and
    [queue] is what is left of [history]. *)
Lemma reachable_history s :
  reach s →
  visited s = list_to_set (history s).*1
  ∧ NoDup (history s).*1
  ∧ ∃ done, history s = done ++ queue s.
Proof.
  intros Hreach.
  induction Hreach as [|s s' Hreach (Hv & Hnd & done & Hh) Hcond Hstep].
  - simpl. split; [set_solver|]. split; [apply NoDup_singleton|].
    by exists [].
  - apply loop_cond_true in Hcond as (current_url & depth & rest & Hq & _).
    destruct (iteration_spec base_domain max_pages max_depth s s' _ _ _ Hq
                Hstep)
      as (new & (Hq' & Hh' & Hv') & Hnd' & Hfresh & _).
    simpl in Hq', Hh', Hv'. rewrite Hq', Hh', Hv'.
    rewrite fmap_app, list_to_set_app_L, Hv.
    split; [set_solver|]. split.
    + apply NoDup_app. split; [done|]. split; [|done].
      intros u Hu Hin. apply Hfresh in Hin. apply Hin.
      rewrite Hv. by apply elem_of_list_to_set.
    + exists (done ++ [(current_url, depth)]).
      rewrite Hh, Hq, <- !app_assoc. done.
Qed.

End Invariants.

Section Termination.

Context `{W : World}.
Context (base_domain : string) (max_pages max_depth : Z).

Local Abbreviation step := (iteration base_domain max_pages max_depth).
Local Abbreviation run :=
  (λ fuel, while fuel base_domain max_pages max_depth).

Lemma while_unfold fuel s :
  run fuel s
  = if loop_cond max_pages s
    then match fuel with
         | O => None
         | S fuel' =>
             match step s with
             | Ok s' => run fuel' s'
             | Raise e => Some (Raise e)
             end
         end
    else Some (Ok s).
Proof. by destruct fuel. Qed.

(** A round raises, adds a record or shortens the queue: the loop is
    over after finitely many rounds, whatever the pages link to. *)
Lemma while_terminates_aux (n : nat) :
  ∀ (m : nat) s,
    (Z.to_nat (max_pages - len (results s)) ≤ n)%nat →
    (length (queue s) ≤ m)%nat →
    ∃ fuel r, run fuel s = Some r.
Proof.
  induction n as [|n IHn]; intros m; induction m as [|m IHm];
    intros s Hbudget Hlen;
    destruct (loop_cond max_pages s) eqn:Hcond;
    try (exists O, (Ok s); by rewrite while_unfold, Hcond);
    pose proof Hcond as (current_url & depth & rest & Hq & Hlt)%loop_cond_true;
    try lia; try (rewrite Hq in Hlen; simpl in Hlen; lia).
  destruct (step s) as [s'|e] eqn:Hstep;
    [|exists 1%nat, (Raise e); by rewrite while_unfold, Hcond, Hstep].
  destruct (iteration_spec base_domain max_pages max_depth s s' _ _ _ Hq
              Hstep)
    as (new & (Hq' & _) & _ & _ & _ & _
        & [[Hres ->] | (page_data & soup & _ & Hres)]).
  - destruct (IHm s') as (fuel & r & Hrun).
    + rewrite Hres. lia.
    + rewrite Hq'. simpl. rewrite app_nil_r.
      rewrite Hq in Hlen. simpl in Hlen. lia.
    + exists (S fuel), r. by rewrite while_unfold, Hcond, Hstep.
  - destruct (IHn (length (queue s')) s') as (fuel & r & Hrun).
    + rewrite Hres, len_app_one. lia.
    + done.
    + exists (S fuel), r. by rewrite while_unfold, Hcond, Hstep.
Qed.

Lemma while_terminates s : ∃ fuel r, run fuel s = Some r.
Proof. by eapply while_terminates_aux. Qed.

(** More fuel does not change what the loop ends in. *)
Lemma while_deterministic fuel1 fuel2 s r1 r2 :
  run fuel1 s = Some r1 → run fuel2 s = Some r2 → r1 = r2.
Proof.
  revert fuel2 s. induction fuel1 as [|fuel1 IH]; intros fuel2 s;
    rewrite (while_unfold _ s), (while_unfold fuel2 s);
    destruct (loop_cond max_pages s); try congruence.
  destruct fuel2 as [|fuel2]; [done|].
  destruct (step s); [apply IH | congruence].
Qed.

(** The loop returns from a state of the loop in which its condition is
    false. *)
Lemma while_reachable url fuel s s' :
  reachable url base_domain max_pages max_depth s →
  run fuel s = Some (Ok s') →
  reachable url base_domain max_pages max_depth s'
  ∧ loop_cond max_pages s' = false.
Proof.
  revert s. induction fuel as [|fuel IH]; intros s Hreach;
    rewrite while_unfold; destruct (loop_cond max_pages s) eqn:Hcond;
    try done; try (by intros [= <-]).
  destruct (step s) as [s1|e] eqn:Hstep; [|done].
  apply IH. by econstructor.
Qed.

End Termination.

Section Errors.

Context `{W : World}.
Context (url base_domain : string) (max_pages max_depth : Z).

Local Abbreviation body := (loop_body base_domain max_pages max_depth).


(** The URL at the head of the queue is nowhere else in it. *)
Lemma head_not_in_rest s current_url depth rest :
  reachable url base_domain max_pages max_depth s →
  queue s = (current_url, depth) :: rest →
  (current_url ∉ rest.*1) ∧ current_url ∈ visited s.
Proof.
  intros (Hv & Hnd & done & Hh)%reachable_history Hq.
  rewrite Hq in Hh. rewrite Hh, fmap_app, fmap_cons in Hnd.
  apply NoDup_app in Hnd as (_ & _ & Hnd). apply NoDup_cons in Hnd as [? _].
  split; [done|]. rewrite Hv, Hh. apply elem_of_list_to_set.
  rewrite fmap_app, fmap_cons. apply elem_of_app. right. by left.
Qed.

(** The round of a page that raises after standard output took the line
    of the page: the handler prints the error. *)
Lemma iteration_raise s current_url depth rest e :
  queue s = (current_url, depth) :: rest →
  stdout_write (stdout s) (scraping_line s max_pages current_url) = Ok () →
  fetch_page current_url = Raise e →
  iteration base_domain max_pages max_depth s
  = try_print (error_line current_url e)
      (print (scraping_line s max_pages current_url) (popleft rest s)).
Proof.
  intros Hq Hout He. unfold iteration, try_block. rewrite Hq.
  change (stdout (popleft rest s)) with (stdout s).
  change (scraping_line (popleft rest s) max_pages current_url)
    with (scraping_line s max_pages current_url).
  by rewrite Hout, He.
Qed.

(** What [save_results] has done when it returns. *)
Lemma save_results_Ok output_file s out :
  save_results output_file s = Ok out →
  json_dump output_file (results s) = Ok ()
  ∧ returned out = results s
  ∧ written out = (output_file, results s)
  ∧ printed out
    = stdout s
        ++ ["Scraped " +:+ Str.of_Z (len (results s)) +:+ " pages";
            "Results saved to " +:+ output_file].
Proof.
  unfold save_results, try_print, mbind, result_bind.
  destruct (json_dump output_file (results s)) as [[]|]; [|done].
  destruct (stdout_write (stdout s) _); [|done]. simpl.
  destruct (stdout_write _ _); [|done]. intros [= <-]. simpl.
  by rewrite <- app_assoc.
Qed.

(** On a standard output that takes every line [save_results] returns as
    soon as the file is written. *)
Lemma save_results_written output_file s :
  json_dump output_file (results s) = Ok () →
  (∀ log line, stdout_write log line = Ok ()) →
  save_results output_file s
  = Ok {| returned := results s;
          written := (output_file, results s);
          printed :=
            stdout s
              ++ ["Scraped " +:+ Str.of_Z (len (results s)) +:+ " pages";
                  "Results saved to " +:+ output_file] |}.
Proof.
  intros Hdump Hout. unfold save_results, try_print, mbind, result_bind.
  rewrite Hdump, Hout. simpl. rewrite Hout. simpl.
  by rewrite <- app_assoc.
Qed.

(** [scrape_website] is the loop from [init url], then [save_results]. *)
Lemma scrape_website_while fuel parsed_url output_file r :
  urlparse url = Ok parsed_url →
  while fuel (netloc parsed_url) max_pages max_depth (init url) = Some r →
  scrape_website fuel url max_pages max_depth output_file
  = Some (r ≫= save_results output_file).
Proof.
  intros Hparse Hrun. unfold scrape_website, base_domain_of, mbind,
    result_bind. rewrite Hparse, Hrun. by destruct r.
Qed.

(** More fuel does not change what [scrape_website] ends in. *)
Lemma scrape_website_deterministic fuel1 fuel2 output_file out1 out2 :
  scrape_website fuel1 url max_pages max_depth output_file = Some out1 →
  scrape_website fuel2 url max_pages max_depth output_file = Some out2 →
  out1 = out2.
Proof.
  unfold scrape_website. destruct (base_domain_of url) as [b|e];
    [|congruence].
  destruct (while fuel1 b max_pages max_depth (init url)) as [r1|] eqn:Hrun1;
    [|done].
  destruct (while fuel2 b max_pages max_depth (init url)) as [r2|] eqn:Hrun2;
    [|by destruct r1].
  rewrite (while_deterministic _ _ _ _ _ _ _ _ Hrun1 Hrun2).
  destruct r2; congruence.
Qed.

End Errors.

(** C9, as stated, fails in its last part: the results are not always
    written.  When the output file cannot be opened, here the file of the
    empty name, [scrape_website] raises after the loop and returns
    nothing. *)
Lemma results_are_not_always_written :
  ¬ (∀ (W : World) url max_pages max_depth output_file,
       is_ok (base_domain_of url) = true →
       ∃ fuel out,
         scrape_website fuel url max_pages max_depth output_file
         = Some (Ok out)
         ∧ written out = (output_file, returned out)).
Proof.
  intros H.
  destruct (H Site.world "http://example.com" 20 2 "" eq_refl)
    as (fuel & out & Hrun & _).
  assert (Hraise : @scrape_website Site.world 10 "http://example.com" 20 2 ""
                   = Some (Raise (OSError
                       "[Errno 2] No such file or directory: ''")))
    by by vm_compute.
  by pose proof (scrape_website_deterministic _ _ _ _ _ _ _ _ Hrun Hraise).
Qed.

(** C9, amended: an exception raised while fetching, parsing or
    extracting a page is caught in the round of that page.  When standard
    output takes the error line, the round returns: it has appended no
    record, printed the error with the URL, enqueued nothing, taken the
    entry off the queue for good, and the loop goes on with the next
    entry.  When standard output refuses the error line, the exception of
    that [print] leaves the loop.  The loop is over after finitely many
    rounds, with its condition false if no round raised.
    [scrape_website] then ends in what [save_results] gives from the
    state of the loop: the exception of the file system when the output
    file cannot be written, and otherwise, on a standard output that
    takes the closing lines, the records of the loop, none included,
    written and returned. *)
Theorem page_errors_are_caught `{W : World} url base_domain max_pages
    max_depth :
  (∀ s current_url depth rest e,
     queue s = (current_url, depth) :: rest →
     loop_cond max_pages s = true →
     stdout_write (stdout s) (scraping_line s max_pages current_url)
     = Ok () →
     fetch_page current_url = Raise e →
     (stdout_write (stdout s ++ [scraping_line s max_pages current_url])
        ("Error processing " +:+ current_url +:+ ": " +:+ str_exn e)
      = Ok () →
      ∃ s',
        iteration base_domain max_pages max_depth s = Ok s'
        ∧ results s' = results s
        ∧ queue s' = rest
        ∧ history s' = history s
        ∧ visited s' = visited s
        ∧ stdout s'
          = stdout s
              ++ [scraping_line s max_pages current_url;
                  "Error processing " +:+ current_url +:+ ": "
                    +:+ str_exn e]
        ∧ (rest ≠ [] → loop_cond max_pages s' = true)
        ∧ ∀ fuel,
            while (S fuel) base_domain max_pages max_depth s
            = while fuel base_domain max_pages max_depth s')
     ∧ (∀ e',
          stdout_write (stdout s ++ [scraping_line s max_pages current_url])
            ("Error processing " +:+ current_url +:+ ": " +:+ str_exn e)
          = Raise e' →
          ∀ fuel,
            while (S fuel) base_domain max_pages max_depth s
            = Some (Raise e'))
     ∧ (reachable url base_domain max_pages max_depth s →
        (current_url ∉ rest.*1) ∧ current_url ∈ visited s))
  ∧ (∀ s, ∃ fuel r,
       while fuel base_domain max_pages max_depth s = Some r
       ∧ ∀ s', r = Ok s' → loop_cond max_pages s' = false)
  ∧ (∀ output_file parsed_url,
       urlparse url = Ok parsed_url →
       ∃ fuel r,
         while fuel (netloc parsed_url) max_pages max_depth (init url)
         = Some r
         ∧ scrape_website fuel url max_pages max_depth output_file
           = Some (r ≫= save_results output_file)
         ∧ ∀ fuel' out,
             scrape_website fuel' url max_pages max_depth output_file
             = Some out →
             out = r ≫= save_results output_file)
  ∧ (∀ output_file s,
       (∀ e, json_dump output_file (results s) = Raise e →
             save_results output_file s = Raise e)
       ∧ (json_dump output_file (results s) = Ok () →
          (∀ log line, stdout_write log line = Ok ()) →
          save_results output_file s
          = Ok {| returned := results s;
                  written := (output_file, results s);
                  printed :=
                    stdout s
                      ++ ["Scraped " +:+ Str.of_Z (len (results s))
                            +:+ " pages";
                          "Results saved to " +:+ output_file] |})).
Proof.
  split; [|split; [|split]].
  - intros s current_url depth rest e Hq Hcond Hline He.
    pose proof (iteration_raise base_domain max_pages max_depth s _ _ _ _
                  Hq Hline He) as Hit.
    unfold try_print, mbind, result_bind in Hit. simpl in Hit.
    split; [|split].
    + intros Herr. unfold error_line in Hit. rewrite Herr in Hit.
      eexists. split; [exact Hit|].
      cbn [results queue history visited stdout print popleft].
      do 4 (split; [done|]). split; [by rewrite <- app_assoc|]. split.
      * intros Hrest. unfold loop_cond in Hcond |- *.
        cbn [results queue print popleft].
        rewrite Hq in Hcond. by destruct rest.
      * intros fuel. by rewrite (while_unfold _ _ _ (S fuel)), Hcond, Hit.
    + intros e' Herr fuel. unfold error_line in Hit. rewrite Herr in Hit.
      by rewrite (while_unfold _ _ _ (S fuel)), Hcond, Hit.
    + intros Hreach. by eapply head_not_in_rest.
  - intros s.
    destruct (while_terminates base_domain max_pages max_depth s)
      as (fuel & r & Hrun).
    exists fuel, r. split; [done|]. intros s' ->.
    clear -Hrun. revert s Hrun. induction fuel as [|fuel IH]; intros s;
      rewrite while_unfold; destruct (loop_cond max_pages s) eqn:Hcond;
      try done; try (by intros [= <-]).
    destruct (iteration _ _ _ s); [apply IH | done].
  - intros output_file parsed_url Hparse.
    destruct (while_terminates (netloc parsed_url) max_pages max_depth
                (init url)) as (fuel & r & Hrun).
    exists fuel, r. split; [done|].
    pose proof (scrape_website_while url max_pages max_depth fuel _
                  output_file r Hparse Hrun) as Hs.
    split; [done|]. intros fuel' out Hout.
    by rewrite (scrape_website_deterministic _ _ _ _ _ _ _ _ Hout Hs).
  - intros output_file s. split.
    + intros e He. unfold save_results, mbind, result_bind. by rewrite He.
    + apply save_results_written.
Qed.

Lemma page_errors_are_caught_witness :
  let s := @loop_body Site.world "example.com" 20 2
             (@loop_body Site.world "example.com" 20 2
                (init "http://example.com")) in
  (∃ s',
     @iteration Site.world "example.com" 20 2 s = Ok s'
     ∧ results s' = results s
     ∧ queue s'
       = [("http://example.com/bare", 1); ("http://example.com/paper.PDF", 1);
          ("http://example.com/", 2); ("http://example.com/deep", 2)]
     ∧ stdout s'
       = stdout s
           ++ ["Scraping page 3/20: http://example.com/broken";
               "Error processing http://example.com/broken: Read timed out."])
  ∧ @scrape_website Site.mute 1 "http://example.com" 20 2 "out.json"
    = Some (Raise (ValueError "I/O operation on closed file.")).
Proof.
  intros s. split; [|by vm_compute].
  destruct (@page_errors_are_caught Site.world "http://example.com"
              "example.com" 20 2) as (Hcaught & _).
  destruct (Hcaught s "http://example.com/broken" 1
              [("http://example.com/bare", 1);
               ("http://example.com/paper.PDF", 1);
               ("http://example.com/", 2); ("http://example.com/deep", 2)]
              (RequestException "Read timed out."))
    as (Hok & _); [by vm_compute..|].
  destruct (Hok eq_refl) as (s' & Hit & Hres & Hq & _ & _ & Hout & _).
  exists s'. split; [exact Hit|]. split; [exact Hres|]. split; [exact Hq|].
  exact Hout.
Defined.



(** ** The bounds of the crawl *)

(** C2: with a positive [max_pages], [results] never has more than
    [max_pages] records, in any state of the loop and in what
    [scrape_website] returns; and a round that leaves [results] with
    exactly [max_pages] records enqueues nothing. *)
Theorem results_never_exceed_max_pages `{W : World} url base_domain
    max_pages max_depth :
  0 < max_pages →
  (∀ s, reachable url base_domain max_pages max_depth s →
        len (results s) ≤ max_pages)
  ∧ (∀ fuel output_file out,
       scrape_website fuel url max_pages max_depth output_file
       = Some (Ok out) →
       len (returned out) ≤ max_pages)
  ∧ (∀ s current_url depth rest,
       queue s = (current_url, depth) :: rest →
       len (results (loop_body base_domain max_pages max_depth s))
       = max_pages →
       queue (loop_body base_domain max_pages max_depth s) = rest
       ∧ history (loop_body base_domain max_pages max_depth s) = history s
       ∧ visited (loop_body base_domain max_pages max_depth s) = visited s).
Proof.
  intros Hpos. split; [|split].
  - intros s Hreach. apply (reachable_results_bound url base_domain _ max_depth);
      [lia | done].
  - intros fuel output_file out. unfold scrape_website.
    destruct (base_domain_of url) as [b|e]; [|done].
    destruct (while fuel b max_pages max_depth (init url)) as [[s|e]|]
      eqn:Hrun; [|done..].
    intros [= (_ & -> & _)%save_results_Ok].
    apply (while_reachable _ _ _ url) in Hrun as [Hreach _]; [|constructor].
    apply (reachable_results_bound url b _ max_depth); [lia | done].
  - intros s current_url depth rest Hq Hfull.
    destruct (loop_body_spec base_domain max_pages max_depth s _ _ _ Hq)
      as (new & (Hq' & Hh & Hv) & _ & _ & _ & [-> | [_ Hlt]] & _); [|lia].
    simpl in Hq', Hh, Hv. rewrite Hq', Hh, Hv, !app_nil_r.
    repeat split. set_solver.
Qed.

Lemma results_never_exceed_max_pages_witness :
  0 < 1
  ∧ ∃ out,
      @scrape_website Site.world 5 "http://example.com" 1 2 "out.json"
      = Some (Ok out)
      ∧ len (returned out) ≤ 1.
Proof.
  split; [lia|].
  destruct (@scrape_website Site.world 5 "http://example.com" 1 2 "out.json")
    as [[out|e]|] eqn:Hrun; [|by vm_compute in Hrun..].
  exists out. split; [done|].
  destruct (@results_never_exceed_max_pages Site.world "http://example.com"
              "example.com" 1 2) as (_ & Hret & _); [lia|].
  by eapply Hret.
Defined.

(** C3: with a non-negative [max_depth], no entry is ever enqueued with a
    depth above [max_depth].  The seed is enqueued at depth 0; a round
    for an entry of depth [d] enqueues at depth [d + 1] and only when
    [d < max_depth], so an entry at depth [max_depth] enqueues nothing. *)
Theorem depth_never_exceeds_max_depth `{W : World} url base_domain
    max_pages max_depth :
  0 ≤ max_depth →
  history (init url) = [(url, 0)]
  ∧ (∀ s, reachable url base_domain max_pages max_depth s →
          ∀ e, e ∈ history s → e.2 ≤ max_depth)
  ∧ (∀ s current_url depth rest,
       queue s = (current_url, depth) :: rest →
       ∃ new,
         queue (loop_body base_domain max_pages max_depth s) = rest ++ new
         ∧ history (loop_body base_domain max_pages max_depth s)
           = history s ++ new
         ∧ ∀ e, e ∈ new → e.2 = depth + 1 ∧ depth < max_depth)
  ∧ (∀ s current_url depth rest,
       queue s = (current_url, depth) :: rest →
       max_depth ≤ depth →
       queue (loop_body base_domain max_pages max_depth s) = rest
       ∧ history (loop_body base_domain max_pages max_depth s) = history s).
Proof.
  intros Hpos. split; [done|]. split; [|split].
  - intros s Hreach. by apply (reachable_depth_bound url base_domain max_pages).
  - intros s current_url depth rest Hq.
    destruct (loop_body_spec base_domain max_pages max_depth s _ _ _ Hq)
      as (new & (Hq' & Hh & _) & _ & _ & Hd & Hgate & _).
    exists new. split; [done|]. split; [done|].
    intros e Hin. split; [by apply Hd|].
    destruct Hgate as [-> | [Hlt _]]; [by apply elem_of_nil in Hin | done].
  - intros s current_url depth rest Hq Hdeep.
    destruct (loop_body_spec base_domain max_pages max_depth s _ _ _ Hq)
      as (new & (Hq' & Hh & _) & _ & _ & _ & [-> | [Hlt _]] & _); [|lia].
    simpl in Hq', Hh. by rewrite Hq', Hh, !app_nil_r.
Qed.

Lemma depth_never_exceeds_max_depth_witness :
  0 ≤ 1
  ∧ history (@loop_body Site.world "example.com" 20 1
               (init "http://example.com"))
    = [("http://example.com", 0); ("http://example.com/about", 1);
       ("http://example.com/broken", 1); ("http://example.com/bare", 1);
       ("http://example.com/paper.PDF", 1)]
  ∧ ∀ e, e ∈ history (@loop_body Site.world "example.com" 20 1
                         (init "http://example.com")) → e.2 ≤ 1.
Proof.
  split; [lia|]. split; [by vm_compute|].
  destruct (@depth_never_exceeds_max_depth Site.world "http://example.com"
              "example.com" 20 1) as (_ & Hinv & _); [lia|].
  apply Hinv. apply reachable_loop_body; [apply reachable_init | by vm_compute..].
Defined.

(** C4: enqueueing goes through [visited].  In every state of the loop
    the URLs in [visited] are exactly the URLs ever enqueued, no URL was
    enqueued twice, and [queue] is the part of [history] not yet taken
    off; a round adds to [visited] exactly the URLs it enqueues, none of
    which was in [visited] before, and nothing for the page it
    processes. *)
Theorem enqueued_at_most_once `{W : World} url base_domain max_pages
    max_depth s :
  reachable url base_domain max_pages max_depth s →
  NoDup (history s).*1
  ∧ (∀ u, u ∈ visited s ↔ u ∈ (history s).*1)
  ∧ (∃ done, history s = done ++ queue s)
  ∧ (∀ current_url depth rest,
       queue s = (current_url, depth) :: rest →
       ∃ new,
         queue (loop_body base_domain max_pages max_depth s) = rest ++ new
         ∧ history (loop_body base_domain max_pages max_depth s)
           = history s ++ new
         ∧ (∀ u, u ∈ visited (loop_body base_domain max_pages max_depth s)
                 ↔ u ∈ new.*1 ∨ u ∈ visited s)
         ∧ (∀ u, u ∈ new.*1 → u ∉ visited s)).
Proof.
  intros Hreach.
  destruct (reachable_history url base_domain max_pages max_depth s Hreach)
    as (Hv & Hnd & Hdone).
  split; [done|]. split; [|split; [done|]].
  - intros u. rewrite Hv. apply elem_of_list_to_set.
  - intros current_url depth rest Hq.
    destruct (loop_body_spec base_domain max_pages max_depth s _ _ _ Hq)
      as (new & (Hq' & Hh & Hv') & _ & Hfresh & _).
    exists new. split; [done|]. split; [done|]. split; [|done].
    intros u. rewrite Hv'. simpl. rewrite elem_of_union, elem_of_list_to_set.
    done.
Qed.

Lemma enqueued_at_most_once_witness :
  NoDup (history (@loop_body Site.world "example.com" 20 2
                    (init "http://example.com"))).*1
  ∧ "http://example.com/about"
    ∈ visited (@loop_body Site.world "example.com" 20 2
                 (init "http://example.com")).
Proof.
  destruct (@enqueued_at_most_once Site.world "http://example.com"
              "example.com" 20 2
              (@loop_body Site.world "example.com" 20 2
                 (init "http://example.com")))
    as (Hnd & Hv & _).
  - apply reachable_loop_body; [apply reachable_init | by vm_compute..].
  - split; [exact Hnd|]. apply Hv. vm_compute.
    repeat constructor.
Defined.

(** * Further properties *)

(** ** Trimming *)

Section StripFacts.

Lemma rstrip_cons c s :
  Str.rstrip (String c s)
  = match Str.rstrip s with
    | EmptyString =>
        if Str.isspace c then EmptyString else String c EmptyString
    | String c' r => String c (String c' r)
    end.
Proof. reflexivity. Qed.

Lemma rstrip_rstrip s : Str.rstrip (Str.rstrip s) = Str.rstrip s.
Proof.
  induction s as [|c s IH]; [done|]. rewrite rstrip_cons.
  destruct (Str.rstrip s) as [|c' r] eqn:Hr.
  - destruct (Str.isspace c) eqn:Hc; [done|]. by rewrite rstrip_cons, Hc.
  - by rewrite rstrip_cons, IH.
Qed.

Lemma lstrip_head s :
  match Str.lstrip s with
  | EmptyString => True
  | String c _ => Str.isspace c = false
  end.
Proof.
  induction s as [|c s IH]; [done|]. simpl.
  destruct (Str.isspace c) eqn:Hc; [exact IH | exact Hc].
Qed.

Lemma rstrip_head s :
  match s with
  | EmptyString => True
  | String c _ => Str.isspace c = false
  end →
  Str.lstrip (Str.rstrip s) = Str.rstrip s.
Proof.
  destruct s as [|c s]; [done|]. intros Hc. rewrite rstrip_cons.
  destruct (Str.rstrip s); rewrite ?Hc; simpl; by rewrite Hc.
Qed.

(** Trimming what is trimmed changes nothing. *)
Lemma strip_strip s : Str.strip (Str.strip s) = Str.strip s.
Proof.
  unfold Str.strip.
  rewrite (rstrip_head (Str.lstrip s)) by apply lstrip_head.
  apply rstrip_rstrip.
Qed.

Lemma truthy_false s : Str.truthy s = false ↔ s = "".
Proof. by destruct s. Qed.

Lemma truthy_true s : Str.truthy s = true ↔ s ≠ "".
Proof. by destruct s. Qed.

End StripFacts.

(** ** Title, once more *)

Lemma or_strip_nonempty_trimmed s :
  let title :=
    if Str.truthy (Str.strip s) then Str.strip s else "Unknown Title" in
  title ≠ "" ∧ Str.strip title = title.
Proof.
  simpl. destruct (Str.truthy (Str.strip s)) eqn:Ht; [|done].
  split; [by apply truthy_true | apply strip_strip].
Qed.

(** A title that is returned is a trimmed candidate or the placeholder. *)
Lemma extract_title_Ok soup title :
  extract_title soup = Ok title →
  ∃ s, title
       = if Str.truthy (Str.strip s) then Str.strip s else "Unknown Title".
Proof.
  unfold extract_title, getitem, mbind, result_bind. intros H.
  destruct (find "h1" soup) as [h1|].
  { injection H as <-. by exists (get_text h1). }
  destruct (find_attr "meta" "property" "og:title" soup) as [meta|].
  { destruct (get meta "content") as [content|]; [|done].
    injection H as <-. by exists content. }
  destruct (find "title" soup) as [t|]; injection H as <-.
  - by exists (get_text t).
  - by exists "".
Qed.

(** X1: a title that [extract_title] returns is never the empty string and
    has no white space at either end. *)
Theorem extract_title_nonempty_trimmed soup title :
  extract_title soup = Ok title →
  title ≠ "" ∧ Str.strip title = title.
Proof.
  intros (s & ->)%extract_title_Ok.
  apply or_strip_nonempty_trimmed.
Qed.

Lemma extract_title_nonempty_trimmed_witness :
  extract_title Docs.blank_h1 = Ok "Unknown Title"
  ∧ "Unknown Title" ≠ "" ∧ Str.strip "Unknown Title" = "Unknown Title".
Proof.
  split; [reflexivity|].
  apply (extract_title_nonempty_trimmed Docs.blank_h1). reflexivity.
Defined.

(** X2: [extract_title] raises in one case only: the document has no [h1]
    and its first [meta property="og:title"] has no [content] attribute.
    The exception is [KeyError('content')], and a [title] element, if
    there is one, is not looked at. *)
Theorem extract_title_raises_iff soup e :
  extract_title soup = Raise e
  ↔ find "h1" soup = None
    ∧ ∃ meta, find_attr "meta" "property" "og:title" soup = Some meta
              ∧ get meta "content" = None
              ∧ e = KeyError "content".
Proof.
  unfold extract_title, getitem, mbind, result_bind. split.
  - intros H. destruct (find "h1" soup) as [h1|]; [done|].
    destruct (find_attr "meta" "property" "og:title" soup) as [meta|].
    + destruct (get meta "content") as [content|] eqn:Hc; [done|].
      injection H as <-. split; [done|]. by exists meta.
    + by destruct (find "title" soup).
  - intros (-> & meta & -> & -> & ->). done.
Qed.

(** ** Date *)

Lemma date_loop_spec soup date elements :
  falsy date →
  or_default (date_loop soup date elements) "Unknown Date"
  = default "Unknown Date"
      (List.find Str.truthy (omap (date_value soup) elements)).
Proof.
  revert date. induction elements as [|[tag [key value]] elements IH];
    intros date Hdate; simpl.
  - destruct date as [d|]; simpl in *; [by rewrite Hdate | done].
  - destruct (find_attr tag key value soup) as [element|]; [|by apply IH].
    destruct (if String.eqb tag "meta" then get element "content"
              else Some (Str.strip (get_text element))) as [d|];
      [|by apply IH].
    simpl. destruct (Str.truthy d) eqn:Hd; [|by apply IH].
    simpl. by rewrite Hd.
Qed.

(** X3: the date is the first non-empty value among, in this order, the
    [content] of [meta property="article:published_time"], of
    [meta name="date"], of [meta name="publication_date"] and the trimmed
    text of [time class="entry-date"]; an element that is missing, a
    [meta] without [content] and an empty value are passed over.  When
    none is left the date is ["Unknown Date"]. *)
Theorem extract_date_first_nonempty soup :
  extract_date soup
  = default "Unknown Date"
      (List.find Str.truthy (omap (date_value soup) date_elements)).
Proof. by apply date_loop_spec. Qed.

Lemma default_find_truthy (l : list string) :
  default "Unknown Date" (List.find Str.truthy l) ≠ "".
Proof.
  destruct (List.find _ _) as [d|] eqn:Hfind; simpl; [|done].
  apply find_some in Hfind as [_ Hd]. by apply truthy_true.
Qed.

(** X4: [extract_date] never returns the empty string. *)
Theorem extract_date_nonempty soup : extract_date soup ≠ "".
Proof.
  rewrite (date_loop_spec soup None date_elements I : extract_date soup = _).
  apply default_find_truthy.
Qed.

(** X5: the [content] of a [meta] element is taken as it is, white space
    at its ends included, while the text of a [time] element is trimmed:
    when the first [meta property="article:published_time"] has a
    non-empty [content], that string is the date. *)
Theorem extract_date_meta_verbatim soup meta content :
  find_attr "meta" "property" "article:published_time" soup = Some meta →
  get meta "content" = Some content →
  content ≠ "" →
  extract_date soup = content.
Proof.
  intros Hfind Hget Hne%truthy_true.
  rewrite (date_loop_spec soup None date_elements I : extract_date soup = _).
  simpl. rewrite Hfind. simpl. rewrite Hget. simpl. by rewrite Hne.
Qed.

Lemma extract_date_meta_verbatim_witness :
  extract_date padded_date = " 2024-01-02 ".
Proof.
  apply (extract_date_meta_verbatim padded_date
           (Tag "meta" {[ "property" := "article:published_time";
                          "content" := " 2024-01-02 " ]} [])
           " 2024-01-02 "); by vm_compute.
Defined.

(** ** Content, once more *)

Lemma named_in_decompose names names' e :
  named_in names' (decompose_all names e) = named_in names' e.
Proof.
  unfold named_in. induction names' as [|n names' IH]; [done|]. simpl.
  by rewrite is_tag_decompose, IH.
Qed.

(** After the removal no element with one of the names is left. *)
Lemma decompose_all_none_left names e y :
  In y (descendants (decompose_all names e)) → named_in names y = false.
Proof.
  revert y. induction e as [s|n a cs IH] using PageElement_tree_ind;
    intros y Hy; [done|].
  rewrite decompose_all_Tag, descendants_Tag in Hy.
  apply in_flat_map in Hy as (c' & Hc' & Hy).
  apply in_map_iff in Hc' as (c & <- & Hc).
  apply filter_In in Hc as [Hc Hn].
  destruct Hy as [<- | Hy].
  - rewrite named_in_decompose. by apply negb_true_iff.
  - rewrite List.Forall_forall in IH. by apply (IH c).
Qed.

(** Removing twice removes nothing more. *)
Lemma decompose_all_idemp names e :
  decompose_all names (decompose_all names e) = decompose_all names e.
Proof.
  induction e as [s|n a cs IH] using PageElement_tree_ind; [done|].
  rewrite !decompose_all_Tag. f_equal.
  induction cs as [|c cs IHcs]; [done|].
  apply List.Forall_cons_iff in IH as [Hc Hcs]. simpl.
  destruct (named_in names c) eqn:Hn; simpl; [by apply IHcs|].
  rewrite named_in_decompose, Hn. simpl. rewrite Hc. f_equal.
  by apply IHcs.
Qed.

(** The tree that comes back is the tree without the unwanted elements. *)
Lemma extract_content_Ok_tree soup content soup' :
  extract_content soup = Ok (content, soup') →
  soup' = decompose_all unwanted soup.
Proof.
  unfold extract_content. intros H.
  destruct (content_container (decompose_all unwanted soup)); [|done].
  by injection H as _ <-.
Qed.

(** X6: the tree [extract_content] leaves has no [script], [style],
    [nav], [footer] or [header] element, and extracting again from that
    tree gives the same content and the same tree. *)
Theorem extract_content_clean_tree soup content soup' :
  extract_content soup = Ok (content, soup') →
  (∀ y, In y (descendants soup') → named_in unwanted y = false)
  ∧ extract_content soup' = Ok (content, soup').
Proof.
  unfold extract_content. intros H.
  destruct (content_container (decompose_all unwanted soup))
    as [container|] eqn:Hc; [|done].
  injection H as <- <-. split; [apply decompose_all_none_left|].
  by rewrite decompose_all_idemp, Hc.
Qed.

Lemma extract_content_clean_tree_witness :
  extract_content with_nav
  = Ok ("Text" +:+ newline +:+ newline,
        Site.page [Site.p "Text"; Site.a "/next"])
  ∧ extract_content (Site.page [Site.p "Text"; Site.a "/next"])
    = Ok ("Text" +:+ newline +:+ newline,
          Site.page [Site.p "Text"; Site.a "/next"]).
Proof.
  split; [by vm_compute|].
  apply (extract_content_clean_tree with_nav). by vm_compute.
Defined.

(** X7: the content is white space only when it is empty: either it has
    a character that is not white space, or it is the empty string. *)
Theorem extract_content_blank_is_empty soup content soup' :
  extract_content soup = Ok (content, soup') →
  Str.strip content = "" → content = "".
Proof.
  unfold extract_content. intros H.
  destruct (content_container (decompose_all unwanted soup))
    as [container|]; [|done].
  injection H as <- _.
  destruct (Str.truthy (Str.strip (fold_left add_paragraph _ _))) eqn:Ht;
    simpl.
  - intros Hblank. by rewrite Hblank in Ht.
  - rewrite strip_strip. done.
Qed.

Lemma extract_content_blank_is_empty_witness :
  extract_content blank_page = Ok ("", blank_page)
  ∧ Str.strip (get_text blank_page) = "".
Proof.
  split; [|by vm_compute].
  destruct (extract_content blank_page) as [[content soup']|e] eqn:Hrun;
    [|by vm_compute in Hrun].
  rewrite (extract_content_blank_is_empty blank_page content soup' Hrun).
  - vm_compute in Hrun. by injection Hrun as _ <-.
  - vm_compute in Hrun. by injection Hrun as <- _.
Defined.

(** ** The link filter, once more *)

(** X8: a link is accepted, with the URL [clean_url], exactly when its
    href resolves to a URL that starts with [http://] or [https://],
    [clean_url] is the scheme, host and path of that URL (its query and
    fragment are dropped), [clean_url] is not in [visited], the host is
    the base domain and [clean_url] ends in none of the four
    extensions. *)
Theorem accept_link_iff `{W : World} base_domain current_url visited link
    clean_url :
  accept_link base_domain current_url visited link = Ok (Some clean_url)
  ↔ ∃ href next_url parsed_next,
      get link "href" = Some href
      ∧ urljoin current_url href = Ok next_url
      ∧ (Str.startswith next_url "http://" = true
         ∨ Str.startswith next_url "https://" = true)
      ∧ urlparse next_url = Ok parsed_next
      ∧ clean_url
        = (scheme parsed_next +:+ "://" +:+ netloc parsed_next
             +:+ path parsed_next)
      ∧ (clean_url ∉ visited)
      ∧ netloc parsed_next = base_domain
      ∧ denied clean_url = false.
Proof.
  split.
  - intros (href & next_url & parsed_next & ? & ? & ? & ? & ? & ? & Heq & ?)
      %accept_link_Some.
    exists href, next_url, parsed_next.
    by rewrite String.eqb_eq in Heq.
  - intros (href & next_url & parsed_next & Hhref & Hjoin & Hhttp & Hparse
            & -> & Hvis & Hdom & Hden).
    unfold accept_link, getitem, mbind, result_bind.
    rewrite Hhref, Hjoin.
    apply orb_true_iff in Hhttp. rewrite Hhttp. simpl.
    rewrite Hparse. rewrite bool_decide_eq_false_2 by done.
    apply String.eqb_eq in Hdom. rewrite Hdom. simpl. by rewrite Hden.
Qed.

(** ** The crawl, once more *)

Section CrawlMore.

Context `{W : World}.
Context (url base_domain : string) (max_pages max_depth : Z).

Local Abbreviation body := (loop_body base_domain max_pages max_depth).
Local Abbreviation reach :=
  (reachable url base_domain max_pages max_depth).

(** What a page that was fetched went through. *)
Lemma fetch_page_Ok current_url page_data soup' :
  fetch_page current_url = Ok (page_data, soup') →
  ∃ response soup,
    requests_get current_url = Ok response
    ∧ raise_for_status response = Ok ()
    ∧ BeautifulSoup (text response) = Ok soup
    ∧ extract_title soup = Ok (title page_data)
    ∧ date page_data = extract_date soup
    ∧ link page_data = current_url
    ∧ extract_content soup = Ok (content page_data, soup').
Proof.
  unfold fetch_page, mbind, result_bind. intros H.
  destruct (requests_get current_url) as [response|] eqn:Hget; [|done].
  destruct (raise_for_status response) as [[]|] eqn:Hstatus;
    [|done].
  destruct (BeautifulSoup (text response)) as [soup|] eqn:Hsoup; [|done].
  destruct (extract_title soup) as [t|] eqn:Htitle; [|done].
  destruct (extract_content soup) as [[c s']|] eqn:Hcontent; [|done].
  injection H as <- <-. by exists response, soup.
Qed.


(** Every entry the link loop enqueues went through the filter. *)
Lemma for_links_accepted current_url depth links s s' oe :
  for_links base_domain current_url depth links s = (s', oe) →
  ∃ new,
    queue s' = queue s ++ new
    ∧ history s' = history s ++ new
    ∧ ∀ e, e ∈ new →
        e.2 = depth + 1
        ∧ ∃ link visited,
            link ∈ links
            ∧ accept_link base_domain current_url visited link
              = Ok (Some e.1).
Proof.
  revert s. induction links as [|link links IH]; intros s Hfor;
    simpl in Hfor.
  - injection Hfor as <- <-. exists []. rewrite !app_nil_r.
    do 2 (split; [done|]). intros e Hin. by apply elem_of_nil in Hin.
  - destruct (accept_link base_domain current_url (visited s) link)
      as [[clean_url|]|e] eqn:Hacc.
    + apply IH in Hfor as (new & Hq & Hh & Hnew).
      exists ((clean_url, depth + 1) :: new). simpl in Hq, Hh.
      rewrite Hq, Hh, <- !app_assoc. do 2 (split; [done|]).
      intros e [->|Hin]%elem_of_cons.
      * split; [done|]. exists link, (visited s). split; [by left | done].
      * destruct (Hnew e Hin) as (Hd & l & v & Hl & Hv).
        split; [done|]. exists l, v. split; [by right | done].
    + apply IH in Hfor as (new & Hq & Hh & Hnew). exists new.
      do 2 (split; [done|]).
      intros e Hin. destruct (Hnew e Hin) as (Hd & l & v & Hl & Hv).
      split; [done|]. exists l, v. split; [by right | done].
    + injection Hfor as <- <-. exists []. rewrite !app_nil_r.
      do 2 (split; [done|]). intros ? Hin. by apply elem_of_nil in Hin.
Qed.

(** The entries one round enqueues come from the anchors of the tree
    that [extract_content] left, and each went through the filter. *)
Lemma loop_body_accepted s current_url depth rest :
  queue s = (current_url, depth) :: rest →
  ∃ new,
    history (body s) = history s ++ new
    ∧ ∀ e, e ∈ new →
        e.2 = depth + 1
        ∧ ∃ page_data soup' link visited,
            fetch_page current_url = Ok (page_data, soup')
            ∧ link ∈ anchors soup'
            ∧ accept_link base_domain current_url visited link
              = Ok (Some e.1).
Proof.
  intros Hq. unfold loop_body. rewrite Hq.
  destruct (fetch_page current_url) as [[page_data soup']|e].
  - destruct (_ && _).
    + destruct (for_links _ _ _ _ _) as [s' oe] eqn:Hfor.
      apply for_links_accepted in Hfor as (new & _ & Hh & Hnew).
      exists new. split; [by destruct oe|].
      intros e Hin. destruct (Hnew e Hin) as (Hd & l & v & Hl & Hv).
      split; [done|]. by exists page_data, soup', l, v.
    + exists []. rewrite app_nil_r. split; [done|].
      intros ? Hin. by apply elem_of_nil in Hin.
  - exists []. rewrite app_nil_r. split; [done|].
    intros ? Hin. by apply elem_of_nil in Hin.
Qed.

Lemma iteration_accepted s s' current_url depth rest :
  queue s = (current_url, depth) :: rest →
  iteration base_domain max_pages max_depth s = Ok s' →
  ∃ new,
    history s' = history s ++ new
    ∧ ∀ e, e ∈ new →
        e.2 = depth + 1
        ∧ ∃ page_data soup' link visited,
            fetch_page current_url = Ok (page_data, soup')
            ∧ link ∈ anchors soup'
            ∧ accept_link base_domain current_url visited link
              = Ok (Some e.1).
Proof.
  intros Hq Hstep.
  destruct (iteration_Ok _ _ _ _ _ _ _ _ Hq Hstep) as [-> | [e0 ->]];
    [by eapply loop_body_accepted|].
  exists []. rewrite app_nil_r. split; [done|].
  intros ? Hin. by apply elem_of_nil in Hin.
Qed.

(** The link of every record is the URL of an entry taken off the queue,
    in the order of the entries. *)
Lemma reachable_results s :
  reach s →
  ∃ done,
    history s = done ++ queue s
    ∧ (link <$> results s) `sublist_of` done.*1
    ∧ ∀ page_data, page_data ∈ results s →
        ∃ soup', fetch_page (link page_data) = Ok (page_data, soup').
Proof.
  intros Hreach.
  induction Hreach as [|s s' Hreach (done & Hh & Hsub & Hrec) Hcond Hstep].
  - exists []. split; [done|]. split; [constructor|].
    intros ? Hin. by apply elem_of_nil in Hin.
  - apply loop_cond_true in Hcond as (current_url & depth & rest & Hq & _).
    destruct (iteration_spec base_domain max_pages max_depth s s' _ _ _ Hq
                Hstep)
      as (new & (Hq' & Hh' & _) & _ & _ & _ & _ & Hres).
    simpl in Hq', Hh'.
    exists (done ++ [(current_url, depth)]).
    split; [by rewrite Hh', Hq', Hh, Hq, <- !app_assoc|].
    rewrite fmap_app. simpl.
    destruct Hres as [[-> _] | (page_data & soup' & Hfetch & ->)].
    + split; [by apply sublist_inserts_r | done].
    + rewrite fmap_app. simpl.
      destruct (fetch_page_Ok _ _ _ Hfetch)
        as (_ & _ & _ & _ & _ & _ & _ & Hlink & _).
      split.
      * apply sublist_app; [done|]. rewrite Hlink. by constructor.
      * intros pd [Hin | ->%list_elem_of_singleton]%elem_of_app;
          [by apply Hrec|].
        exists soup'. by rewrite Hlink.
Qed.

(** The depths in the order of enqueueing never go down, and nothing was
    enqueued more than one level below the entry at the head. *)
Lemma reachable_bfs s :
  reach s →
  StronglySorted Z.le (history s).*2
  ∧ ∀ current_url depth rest,
      queue s = (current_url, depth) :: rest →
      ∀ e, e ∈ history s → e.2 ≤ depth + 1.
Proof.
  intros Hreach.
  induction Hreach as [|s s' Hreach [Hsorted Hhead] Hcond Hstep].
  - split; [repeat constructor|].
    intros current_url depth rest [= <- <- <-] e ->%list_elem_of_singleton.
    simpl. lia.
  - destruct (reachable_history url base_domain max_pages max_depth s Hreach)
      as (_ & _ & done & Hh).
    apply loop_cond_true in Hcond as (current_url & depth & rest & Hq & _).
    destruct (iteration_spec base_domain max_pages max_depth s s' _ _ _ Hq
                Hstep)
      as (new & (Hq' & Hh' & _) & _ & _ & Hd & _).
    simpl in Hq', Hh'. rewrite Hh', Hq'.
    specialize (Hhead _ _ _ Hq). split.
    + rewrite fmap_app. apply StronglySorted_app_2; [|done|].
      * intros x1 x2 (e1 & -> & He1)%list_elem_of_fmap
          (e2 & -> & He2)%list_elem_of_fmap.
        rewrite (Hd e2 He2). by apply Hhead.
      * clear Hh' Hq'. induction new as [|e new IH]; [constructor|].
        rewrite fmap_cons. constructor.
        -- apply IH. intros e' He'. apply Hd. by right.
        -- apply Forall_forall. intros x (e' & -> & He')%list_elem_of_fmap.
           rewrite (Hd e) by by left. rewrite (Hd e') by by right. done.
    + intros u' d' rest' Hq'' e He.
      assert (Hle : depth ≤ d').
      { destruct rest as [|[u2 d2] rest2].
        - simpl in Hq''. destruct new as [|e' new']; [done|].
          injection Hq'' as He' _. pose proof (Hd e' ltac:(by left)) as Hd'.
          rewrite He' in Hd'. simpl in Hd'. lia.
        - injection Hq'' as -> -> _.
          rewrite Hh, Hq, fmap_app, !fmap_cons in Hsorted.
          apply StronglySorted_app_1_r in Hsorted.
          apply StronglySorted_cons in Hsorted as [Hall _].
          apply Forall_cons in Hall as [Hle _]. done. }
      apply elem_of_app in He as [He|He].
      * specialize (Hhead e He). lia.
      * rewrite (Hd e He). lia.
Qed.

(** Every entry ever enqueued is the seed or went through the filter. *)
Lemma reachable_accepted s :
  reach s →
  ∀ e, e ∈ history s →
    e = (url, 0)
    ∨ (1 ≤ e.2
       ∧ ∃ current_url visited link,
           accept_link base_domain current_url visited link = Ok (Some e.1)).
Proof.
  intros Hreach. induction Hreach as [|s s' Hreach IH Hcond Hstep].
  - intros e ->%list_elem_of_singleton. by left.
  - destruct (reachable_history url base_domain max_pages max_depth s Hreach)
      as (_ & _ & done & Hh).
    apply loop_cond_true in Hcond as (current_url & depth & rest & Hq & _).
    destruct (iteration_accepted s s' _ _ _ Hq Hstep) as (new & Hh' & Hnew).
    rewrite Hh'. intros e [He|He]%elem_of_app; [by apply IH|].
    destruct (Hnew e He) as (Hd & _ & _ & l & v & _ & _ & Hacc).
    right. split; [|by exists current_url, v, l].
    assert (Hin : (current_url, depth) ∈ history s).
    { rewrite Hh, Hq. apply elem_of_app. right. by left. }
    destruct (IH _ Hin) as [[= _ ->] | [Hpos _]]; simpl in *; lia.
Qed.

(** The state [scrape_website] returns from is a state of the loop in
    which the condition of the loop is false. *)
Lemma scrape_website_Ok fuel output_file out :
  scrape_website fuel url max_pages max_depth output_file = Some (Ok out) →
  ∃ parsed_url s,
    urlparse url = Ok parsed_url
    ∧ reachable url (netloc parsed_url) max_pages max_depth s
    ∧ loop_cond max_pages s = false
    ∧ returned out = results s.
Proof.
  unfold scrape_website, base_domain_of, mbind, result_bind.
  destruct (urlparse url) as [parsed_url|]; [|done].
  destruct (while fuel _ _ _ _) as [[s|e]|] eqn:Hrun; [|done..].
  intros [= (_ & Hret & _)%save_results_Ok].
  exists parsed_url, s. split; [done|].
  apply (while_reachable _ _ _ url) in Hrun as [Hreach Hcond];
    [done | constructor].
Qed.

End CrawlMore.

(** X9: every record [scrape_website] returns has a title that is not
    empty and has no white space at its ends, a date that is not empty,
    and as its link the URL the page was requested with. *)
Theorem records_are_filled `{W : World} fuel url max_pages max_depth
    output_file out page_data :
  scrape_website fuel url max_pages max_depth output_file = Some (Ok out) →
  page_data ∈ returned out →
  title page_data ≠ ""
  ∧ Str.strip (title page_data) = title page_data
  ∧ date page_data ≠ ""
  ∧ ∃ response, requests_get (link page_data) = Ok response.
Proof.
  intros (parsed_url & s & _ & Hreach & _ & ->)%scrape_website_Ok Hin.
  destruct (reachable_results _ _ _ _ s Hreach) as (_ & _ & _ & Hrec).
  destruct (Hrec _ Hin) as (soup' & Hfetch).
  destruct (fetch_page_Ok _ _ _ Hfetch)
    as (response & soup & Hget & _ & _ & Htitle & -> & _ & _).
  apply extract_title_Ok in Htitle as (t & ->).
  destruct (or_strip_nonempty_trimmed t) as [Hne Htrim].
  split; [done|]. split; [done|]. split; [|by exists response].
  rewrite (date_loop_spec soup None date_elements I : extract_date soup = _).
  apply default_find_truthy.
Qed.

Lemma records_are_filled_witness :
  ∃ out,
    @scrape_website Site.world 10 "http://example.com" 20 2 "out.json"
    = Some (Ok out)
    ∧ title <$> returned out = ["Home"; "About"]
    ∧ date <$> returned out = ["Unknown Date"; "Unknown Date"]
    ∧ ∀ page_data, page_data ∈ returned out → title page_data ≠ "".
Proof.
  destruct (@scrape_website Site.world 10 "http://example.com" 20 2
              "out.json") as [[out|e]|] eqn:Hrun; [|by vm_compute in Hrun..].
  exists out. split; [done|].
  split; [vm_compute in Hrun; by injection Hrun as <-|].
  split; [vm_compute in Hrun; by injection Hrun as <-|].
  intros page_data Hin.
  by destruct (@records_are_filled Site.world _ _ _ _ _ _ _ Hrun Hin).
Defined.

(** X10: no two records have the same link, and the records come in the
    order in which their URLs were enqueued; the URL of a record is not
    in the queue any more. *)
Theorem records_distinct_in_order `{W : World} url base_domain max_pages
    max_depth s :
  reachable url base_domain max_pages max_depth s →
  NoDup (link <$> results s)
  ∧ (link <$> results s) `sublist_of` (history s).*1
  ∧ ∀ page_data, page_data ∈ results s → link page_data ∉ (queue s).*1.
Proof.
  intros Hreach.
  destruct (reachable_results _ _ _ _ s Hreach) as (done & Hh & Hsub & _).
  destruct (reachable_history _ _ _ _ s Hreach) as (_ & Hnd & _).
  rewrite Hh, fmap_app in Hnd |- *.
  apply NoDup_app in Hnd as (Hnd & Hdisj & _).
  split; [by eapply sublist_NoDup|].
  split; [by apply sublist_inserts_r|].
  intros page_data Hin. apply Hdisj.
  eapply elem_of_sublist; [|done]. by apply list_elem_of_fmap_2.
Qed.

Lemma records_distinct_in_order_witness :
  link <$> results (@loop_body Site.world "example.com" 20 2
                      (@loop_body Site.world "example.com" 20 2
                         (init "http://example.com")))
  = ["http://example.com"; "http://example.com/about"]
  ∧ NoDup (link <$> results (@loop_body Site.world "example.com" 20 2
                               (@loop_body Site.world "example.com" 20 2
                                  (init "http://example.com")))).
Proof.
  split; [by vm_compute|].
  apply (@records_distinct_in_order Site.world "http://example.com"
           "example.com" 20 2).
  apply reachable_loop_body; [|by vm_compute..].
  apply reachable_loop_body; [apply reachable_init | by vm_compute..].
Defined.

(** X11: the crawl is breadth first.  The depths of the entries, in the
    order in which they were enqueued, never go down, and every entry in
    the queue is at the depth of the entry at its head or one below. *)
Theorem breadth_first_order `{W : World} url base_domain max_pages
    max_depth s :
  reachable url base_domain max_pages max_depth s →
  StronglySorted Z.le (history s).*2
  ∧ ∀ current_url depth rest,
      queue s = (current_url, depth) :: rest →
      ∀ e, e ∈ rest → depth ≤ e.2 ≤ depth + 1.
Proof.
  intros Hreach.
  destruct (reachable_bfs _ _ _ _ s Hreach) as [Hsorted Hhead].
  destruct (reachable_history _ _ _ _ s Hreach) as (_ & _ & done & Hh).
  split; [done|]. intros current_url depth rest Hq e He. split.
  - rewrite Hh, Hq, fmap_app, fmap_cons in Hsorted.
    apply StronglySorted_app_1_r in Hsorted.
    apply StronglySorted_cons in Hsorted as [Hall _].
    rewrite Forall_forall in Hall. apply Hall. by apply list_elem_of_fmap_2.
  - apply (Hhead _ _ _ Hq). rewrite Hh, Hq. apply elem_of_app. right.
    by right.
Qed.

Lemma breadth_first_order_witness :
  (history (@loop_body Site.world "example.com" 20 2
              (@loop_body Site.world "example.com" 20 2
                 (init "http://example.com")))).*2
  = [0; 1; 1; 1; 1; 2; 2]
  ∧ StronglySorted Z.le
      (history (@loop_body Site.world "example.com" 20 2
                  (@loop_body Site.world "example.com" 20 2
                     (init "http://example.com")))).*2.
Proof.
  split; [by vm_compute|].
  apply (@breadth_first_order Site.world "http://example.com"
           "example.com" 20 2).
  apply reachable_loop_body; [|by vm_compute..].
  apply reachable_loop_body; [apply reachable_init | by vm_compute..].
Defined.

(** X12: every entry ever enqueued is the seed, at depth 0, or an entry
    at depth 1 or more whose URL is the scheme, host and path of an
    [http://] or [https://] URL with the base domain as its host, and
    ends in none of the four extensions.  The seed itself is enqueued as
    it is given, whatever its host and its extension. *)
Theorem enqueued_urls_pass_the_filter `{W : World} url base_domain
    max_pages max_depth s e :
  reachable url base_domain max_pages max_depth s →
  e ∈ history s →
  e = (url, 0)
  ∨ (1 ≤ e.2
     ∧ denied e.1 = false
     ∧ ∃ next_url parsed_next,
         (Str.startswith next_url "http://" = true
          ∨ Str.startswith next_url "https://" = true)
         ∧ urlparse next_url = Ok parsed_next
         ∧ netloc parsed_next = base_domain
         ∧ e.1 = (scheme parsed_next +:+ "://" +:+ netloc parsed_next
                    +:+ path parsed_next)).
Proof.
  intros Hreach He.
  destruct (reachable_accepted _ _ _ _ s Hreach e He)
    as [-> | (Hd & current_url & visited & link & Hacc)]; [by left|].
  right. split; [done|].
  apply accept_link_Some in Hacc
    as (href & next_url & parsed_next & _ & _ & Hhttp & Hparse & Hclean & _
        & Hdom%String.eqb_eq & Hden).
  split; [done|]. by exists next_url, parsed_next.
Qed.

Lemma enqueued_urls_pass_the_filter_witness :
  ("http://example.com/paper.PDF", 1)
  ∈ history (@loop_body Site.world "example.com" 20 2
               (init "http://example.com"))
  ∧ denied "http://example.com/paper.PDF" = false.
Proof.
  assert (Hin : ("http://example.com/paper.PDF", 1)
                ∈ history (@loop_body Site.world "example.com" 20 2
                             (init "http://example.com")))
    by (vm_compute; repeat constructor).
  split; [exact Hin|].
  destruct (@enqueued_urls_pass_the_filter Site.world "http://example.com"
              "example.com" 20 2
              (@loop_body Site.world "example.com" 20 2
                 (init "http://example.com"))
              ("http://example.com/paper.PDF", 1))
    as [Hseed | (_ & Hden & _)]; [| exact Hin | done | exact Hden].
  apply reachable_loop_body; [apply reachable_init | by vm_compute..].
Defined.

(** ** The bounds at their ends *)

Lemma loop_cond_init url max_pages :
  loop_cond max_pages (init url) = (0 <? max_pages).
Proof. reflexivity. Qed.

(** X13: with [max_pages] zero or negative the loop is not entered: no
    page is requested and nothing is printed before the file is written.
    The call ends in what writing the empty list gives: the exception of
    the file system when the output file cannot be written, and
    otherwise, on a standard output that takes the two closing lines,
    the empty list returned and those two lines printed. *)
Theorem no_round_without_page_budget `{W : World} fuel url parsed_url
    max_pages max_depth output_file :
  max_pages ≤ 0 →
  urlparse url = Ok parsed_url →
  while fuel (netloc parsed_url) max_pages max_depth (init url)
  = Some (Ok (init url))
  ∧ (∀ e, json_dump output_file [] = Raise e →
          scrape_website fuel url max_pages max_depth output_file
          = Some (Raise e))
  ∧ (json_dump output_file [] = Ok () →
     stdout_write [] "Scraped 0 pages" = Ok () →
     stdout_write ["Scraped 0 pages"] ("Results saved to " +:+ output_file)
     = Ok () →
     scrape_website fuel url max_pages max_depth output_file
     = Some (Ok {| returned := [];
                   written := (output_file, []);
                   printed := ["Scraped 0 pages";
                               "Results saved to " +:+ output_file] |})).
Proof.
  intros Hmax Hparse.
  assert (Hrun : while fuel (netloc parsed_url) max_pages max_depth
                   (init url) = Some (Ok (init url))).
  { rewrite while_unfold, loop_cond_init.
    by destruct (Z.ltb_spec 0 max_pages); [lia|]. }
  split; [done|].
  rewrite (scrape_website_while url max_pages max_depth fuel _ output_file
             _ Hparse Hrun).
  unfold save_results, try_print, mbind, result_bind.
  change (results (init url)) with (@nil PageRecord). split.
  - by intros e ->.
  - intros -> Hone Htwo.
    assert (H1 : stdout_write (stdout (init url))
                   ("Scraped " +:+ Str.of_Z (len (@nil PageRecord))
                      +:+ " pages") = Ok ()) by exact Hone.
    rewrite H1. cbv beta iota.
    assert (H2 : stdout_write
                   (stdout (print ("Scraped "
                                     +:+ Str.of_Z (len (@nil PageRecord))
                                     +:+ " pages") (init url)))
                   ("Results saved to " +:+ output_file) = Ok ())
      by exact Htwo.
    by rewrite H2.
Qed.

Lemma no_round_without_page_budget_witness :
  @scrape_website Site.world 0 "http://example.com" 0 2 "out.json"
  = Some (Ok {| returned := [];
                written := ("out.json", []);
                printed := ["Scraped 0 pages";
                            "Results saved to out.json"] |})
  ∧ @scrape_website Site.world 0 "http://example.com" 0 2 ""
    = Some (Raise (OSError "[Errno 2] No such file or directory: ''")).
Proof.
  destruct (@no_round_without_page_budget Site.world 0 "http://example.com"
              (Site.parse "http://example.com") 0 2 "out.json")
    as (_ & _ & Hok); [lia | reflexivity |].
  destruct (@no_round_without_page_budget Site.world 0 "http://example.com"
              (Site.parse "http://example.com") 0 2 "")
    as (_ & Hraise & _); [lia | reflexivity |].
  split; [by apply Hok | by apply Hraise].
Defined.

(** X14: when the page of the seed cannot be fetched, parsed or
    extracted, the loop is over after one round with no record.  On a
    standard output that takes every line the call then ends in what
    writing the empty list gives: the exception of the file system when
    the output file cannot be written, and otherwise the empty list
    returned, with the error printed between the line of the page and
    the two closing lines. *)
Theorem seed_failure_gives_no_record `{W : World} fuel url parsed_url
    max_pages max_depth output_file e :
  0 < max_pages →
  urlparse url = Ok parsed_url →
  (∀ log line, stdout_write log line = Ok ()) →
  fetch_page url = Raise e →
  (∀ e', json_dump output_file [] = Raise e' →
         scrape_website (S fuel) url max_pages max_depth output_file
         = Some (Raise e'))
  ∧ (json_dump output_file [] = Ok () →
     scrape_website (S fuel) url max_pages max_depth output_file
     = Some (Ok {| returned := [];
                   written := (output_file, []);
                   printed :=
                     ["Scraping page 1/" +:+ Str.of_Z max_pages +:+ ": "
                        +:+ url;
                      "Error processing " +:+ url +:+ ": " +:+ str_exn e;
                      "Scraped 0 pages";
                      "Results saved to " +:+ output_file] |})).
Proof.
  intros Hmax Hparse Hout Hfetch.
  assert (Hrun : while (S fuel) (netloc parsed_url) max_pages max_depth
                   (init url)
                 = Some (Ok (loop_body (netloc parsed_url) max_pages
                               max_depth (init url)))).
  { rewrite while_unfold, loop_cond_init.
    destruct (Z.ltb_spec 0 max_pages); [|lia].
    rewrite (iteration_loop_body _ _ _ _ Hout), while_unfold.
    unfold loop_body. simpl. by rewrite Hfetch. }
  rewrite (scrape_website_while url max_pages max_depth (S fuel) _
             output_file _ Hparse Hrun).
  unfold loop_body. simpl. rewrite Hfetch. split.
  - intros e' He'. unfold save_results, mbind, result_bind. simpl.
    by rewrite He'.
  - intros Hdump. by rewrite save_results_written.
Qed.

Lemma seed_failure_gives_no_record_witness :
  @scrape_website Site.world 1 "http://example.com/broken" 20 2 "out.json"
  = Some (Ok {| returned := [];
                written := ("out.json", []);
                printed :=
                  ["Scraping page 1/20: http://example.com/broken";
                   "Error processing http://example.com/broken: Read timed out.";
                   "Scraped 0 pages";
                   "Results saved to out.json"] |}).
Proof.
  destruct (@seed_failure_gives_no_record Site.world 0
              "http://example.com/broken"
              (Site.parse "http://example.com/broken") 20 2 "out.json"
              (RequestException "Read timed out.")) as (_ & Hok);
    [lia | reflexivity | done | reflexivity |].
  by apply Hok.
Defined.

(** X15: with [max_depth] zero or negative no link is followed: when the
    page of the seed is fetched, the loop is over after one round with
    the record of that page as the only one, whatever the page links to.
    On a standard output that takes every line the call then ends in
    what writing that one record gives: the exception of the file system
    when the output file cannot be written, and otherwise the record
    returned. *)
Theorem only_the_seed_without_depth `{W : World} fuel url parsed_url
    max_pages max_depth output_file page_data soup :
  0 < max_pages →
  max_depth ≤ 0 →
  urlparse url = Ok parsed_url →
  (∀ log line, stdout_write log line = Ok ()) →
  fetch_page url = Ok (page_data, soup) →
  (∀ e, json_dump output_file [page_data] = Raise e →
        scrape_website (S fuel) url max_pages max_depth output_file
        = Some (Raise e))
  ∧ (json_dump output_file [page_data] = Ok () →
     scrape_website (S fuel) url max_pages max_depth output_file
     = Some (Ok {| returned := [page_data];
                   written := (output_file, [page_data]);
                   printed :=
                     ["Scraping page 1/" +:+ Str.of_Z max_pages +:+ ": "
                        +:+ url;
                      "Scraped 1 pages";
                      "Results saved to " +:+ output_file] |})).
Proof.
  intros Hmax Hdepth Hparse Hout Hfetch.
  assert (Hbody : loop_body (netloc parsed_url) max_pages max_depth
                    (init url)
                  = append_result page_data
                      (print ("Scraping page 1/" +:+ Str.of_Z max_pages
                                +:+ ": " +:+ url)
                         (popleft [] (init url)))).
  { unfold loop_body. simpl. rewrite Hfetch.
    by destruct (Z.ltb_spec 0 max_depth); [lia|]. }
  assert (Hrun : while (S fuel) (netloc parsed_url) max_pages max_depth
                   (init url)
                 = Some (Ok (loop_body (netloc parsed_url) max_pages
                               max_depth (init url)))).
  { rewrite while_unfold, loop_cond_init.
    destruct (Z.ltb_spec 0 max_pages); [|lia].
    rewrite (iteration_loop_body _ _ _ _ Hout), while_unfold.
    by rewrite Hbody. }
  rewrite (scrape_website_while url max_pages max_depth (S fuel) _
             output_file _ Hparse Hrun), Hbody.
  change (Ok ?s ≫= save_results output_file)
    with (save_results output_file s).
  split.
  - intros e He. unfold save_results, mbind, result_bind. simpl.
    by rewrite He.
  - intros Hdump. by rewrite save_results_written.
Qed.

Lemma only_the_seed_without_depth_witness :
  ∃ out,
    @scrape_website Site.world 1 "http://example.com" 20 0 "out.json"
    = Some (Ok out)
    ∧ link <$> returned out = ["http://example.com"].
Proof.
  destruct (@fetch_page Site.world "http://example.com")
    as [[page_data soup]|e] eqn:Hfetch; [|by vm_compute in Hfetch].
  destruct (@only_the_seed_without_depth Site.world 0 "http://example.com"
              (Site.parse "http://example.com") 20 0 "out.json"
              page_data soup) as (_ & Hok);
    [lia | lia | reflexivity | done | exact Hfetch |].
  eexists. split; [by apply Hok|].
  simpl. vm_compute in Hfetch. by injection Hfetch as <- _.
Defined.

(** ** Links and the elements that are removed *)

Section KeptFacts.

Lemma kept_Tag names n a cs :
  kept names (Tag n a cs)
  = flat_map (λ c, if named_in names c then [] else c :: kept names c) cs.
Proof.
  induction cs as [|c cs IH]; [done|]. simpl in *. rewrite <- IH.
  by destruct (named_in names c).
Qed.

(** The tree after the removal has the elements that were kept, each
    after the removals below it. *)
Lemma descendants_decompose_kept names e :
  descendants (decompose_all names e)
  = decompose_all names <$> kept names e.
Proof.
  induction e as [s|n a cs IH] using PageElement_tree_ind; [done|].
  rewrite decompose_all_Tag, descendants_Tag, kept_Tag.
  induction cs as [|c cs IHcs]; [done|].
  apply List.Forall_cons_iff in IH as [Hc Hcs]. simpl.
  destruct (named_in names c); simpl; [by apply IHcs|].
  rewrite fmap_app, Hc. f_equal. f_equal. by apply IHcs.
Qed.

Lemma filter_fmap_same {A} (P : A → Prop) `{∀ x, Decision (P x)}
    (f : A → A) (l : list A) :
  (∀ x, P (f x) ↔ P x) →
  filter P (f <$> l) = f <$> filter P l.
Proof.
  intros Hf. induction l as [|x l IH]; [done|].
  rewrite fmap_cons, !filter_cons.
  destruct (decide (P (f x))) as [Hy|Hn], (decide (P x)) as [Hy'|Hn'].
  - by rewrite fmap_cons, IH.
  - destruct Hn'. by apply Hf.
  - destruct Hn. by apply Hf.
  - done.
Qed.

Lemma anchors_decompose names soup :
  anchors (decompose_all names soup)
  = decompose_all names <$> filter is_anchor (kept names soup).
Proof.
  unfold anchors. rewrite descendants_decompose_kept.
  apply (filter_fmap_same is_anchor).
  intros x. unfold is_anchor. by rewrite is_tag_decompose, get_decompose.
Qed.

End KeptFacts.

Section LinkFacts.

Context `{W : World}.
Context (base_domain : string) (max_pages max_depth : Z).

Local Abbreviation body := (loop_body base_domain max_pages max_depth).






End LinkFacts.



(** X17: the links of a page are looked for after [extract_content] has
    removed the [script], [style], [nav], [footer] and [header] elements
    from the tree: the anchors the round goes through are the anchors
    with an [href] that are not inside such an element, in document
    order, and only they can be enqueued. *)
Theorem links_outside_removed_elements `{W : World} base_domain max_pages
    max_depth s current_url depth rest page_data soup' :
  queue s = (current_url, depth) :: rest →
  fetch_page current_url = Ok (page_data, soup') →
  ∃ response soup,
    requests_get current_url = Ok response
    ∧ BeautifulSoup (text response) = Ok soup
    ∧ anchors soup'
      = decompose_all unwanted <$> filter is_anchor (kept unwanted soup)
    ∧ ∃ new,
        history (loop_body base_domain max_pages max_depth s)
        = history s ++ new
        ∧ ∀ e, e ∈ new →
            ∃ link visited,
              link ∈ anchors soup'
              ∧ accept_link base_domain current_url visited link
                = Ok (Some e.1).
Proof.
  intros Hq Hfetch.
  destruct (fetch_page_Ok _ _ _ Hfetch)
    as (response & soup & Hget & _ & Hsoup & _ & _ & _ & Hcontent).
  exists response, soup. do 2 (split; [done|]).
  apply extract_content_Ok_tree in Hcontent as ->.
  split; [apply anchors_decompose|].
  destruct (loop_body_accepted base_domain max_pages max_depth s _ _ _ Hq)
    as (new & Hh & Hnew).
  exists new. split; [done|]. intros e He.
  destruct (Hnew e He) as (_ & pd & s2 & link & visited & Hf & Hin & Hacc).
  rewrite Hfetch in Hf. injection Hf as _ <-. by exists link, visited.
Qed.

Lemma links_outside_removed_elements_witness :
  anchors (decompose_all unwanted with_nav) = [Site.a "/next"]
  ∧ history (@loop_body Odd.world "odd.test" 20 2 (init "http://odd.test"))
    = [("http://odd.test", 0); ("http://odd.test/next", 1)].
Proof.
  split; [|by vm_compute].
  destruct (@fetch_page Odd.world "http://odd.test")
    as [[page_data soup']|e] eqn:Hfetch; [|by vm_compute in Hfetch].
  destruct (@links_outside_removed_elements Odd.world "odd.test" 20 2
              (init "http://odd.test") "http://odd.test" 0 [] page_data
              soup' eq_refl Hfetch)
    as (response & soup & Hget & Hsoup & Hanchors & _).
  vm_compute in Hget. injection Hget as <-.
  vm_compute in Hsoup. injection Hsoup as <-.
  vm_compute in Hfetch. injection Hfetch as _ <-.
  vm_compute. reflexivity.
Defined.
